(** * Lief Notes: the ownership-scoped note store and the scan ingestion pipeline

    A shallow embedding of

    - [src/app/api/notes/route.ts]: the four handlers [GET], [POST], [PATCH]
      and [DELETE] over the MongoDB collection [notes];
    - [app/page.tsx]: [runOcrOnImage], [handleScanFile] and the progress
      logger of the scan form,

    followed by the properties of the specification that concern them. *)

From Stdlib Require Import ZArith QArith Qround Qpower Lqa String Ascii List DecimalString.
From stdpp Require Import gmap strings list sorting.

Local Open Scope string_scope.
Local Open Scope list_scope.

(** * The notes route: [src/app/api/notes/route.ts] *)

Module Route.

(** ** JavaScript values that come out of a JSON request body *)

(** What [request.json()] can produce. *)
#[local] Set Warnings "-register-all".
Inductive JSON : Type :=
| JNull
| JBool (b : bool)
| JNum (n : Q)
| JStr (s : string)
| JArr (items : list JSON)
| JObj (fields : list (string * JSON)).
#[local] Set Warnings "register-all".

(** A destructured binding: [None] is JavaScript's [undefined]. *)
Abbreviation JsValue := (option JSON).

(** Property lookup by name.  Only objects carry the names the handlers
    read; [fields] are the members in the order of the text, and of two
    members with one name [JSON.parse] keeps the later. *)
Definition prop (body : JSON) (key : string) : JsValue :=
  match body with
  | JObj fields => snd <$> List.find (λ kv, String.eqb (fst kv) key) (rev fields)
  | _ => None
  end.

(** [const { ... } = body]: throws a TypeError on [null], otherwise every
    name is bound to the property or to [undefined]. *)
Definition destructure (body : JSON) : option (string → JsValue) :=
  match body with
  | JNull => None
  | _ => Some (prop body)
  end.

(** Truthiness, as tested by [!v]. *)
Definition truthy (v : JsValue) : bool :=
  match v with
  | None => false
  | Some JNull => false
  | Some (JBool b) => b
  | Some (JNum n) => negb (Qeq_bool n 0)
  | Some (JStr s) => negb (String.eqb s "")
  | Some (JArr _) => true
  | Some (JObj _) => true
  end.

(** [v ?? d]. *)
Definition nullish_or (v : JsValue) (d : JSON) : JSON :=
  match v with
  | None => d
  | Some JNull => d
  | Some x => x
  end.

(** A value as the driver writes it into a document: [undefined] becomes
    [null]. *)
Definition bson (v : JsValue) : JSON :=
  match v with
  | Some x => x
  | None => JNull
  end.

(** [v === "literal"]. *)
Definition strict_eq_str (v : JSON) (lit : string) : bool :=
  match v with
  | JStr s => String.eqb s lit
  | _ => false
  end.

(** ** The session, as far as the handlers look at it *)

Record User := { email : option string }.
Record Session := { user : option User }.

(** [session?.user?.email] *)
Definition session_email (session : option Session) : option string :=
  match session with
  | Some s =>
      match user s with
      | Some u => email u
      | None => None
      end
  | None => None
  end.

(** The guard [!session?.user?.email] lets a caller through exactly when the
    e-mail is a non-empty string. *)
Definition caller (session : option Session) : option string :=
  match session_email session with
  | Some e => if String.eqb e "" then None else Some e
  | None => None
  end.

(** ** Documents of the [notes] collection *)

(** Milliseconds since the epoch. *)
Abbreviation Date := Z (only parsing).

(** The 12-byte identifier, as a 96-bit number. *)
Abbreviation ObjectId := N (only parsing).

(** A document as [POST] inserts it ([_id] is the key of the collection);
    [updatedAt] appears with the first [PATCH]. *)
Record Note := {
  doctorId : string;
  title : JSON;
  source : JSON;
  contentHtml : JSON;
  ocrText : JSON;
  fileUrl : JSON;
  fileName : JSON;
  fileType : JSON;
  filePublicId : JSON;
  createdAt : option Date;
  updatedAt : option Date
}.

(** The collection: documents keyed by their unique [_id]. *)
Abbreviation Notes := (gmap N Note) (only parsing).

(** The text [toISOString()] gives for an instant. *)
Inductive IsoString := Iso (instant : Z).

(** An element of the [serialized] array of [GET]. *)
Record NoteJson := {
  json_id : string;
  json_doctorId : string;
  json_title : JSON;
  json_source : JSON;
  json_contentHtml : JSON;
  json_ocrText : JSON;
  json_fileUrl : JSON;
  json_fileName : JSON;
  json_fileType : JSON;
  json_filePublicId : JSON;
  json_createdAt : option IsoString;
  json_updatedAt : option Date
}.

(** ** Responses *)

Inductive Payload :=
| ErrorJson (error : string)
| NotesJson (notes : list NoteJson)
| IdJson (id : string)
| SuccessJson.

Record Response := { status : nat; payload : Payload }.

(** A handler either returns a response or lets an exception escape. *)
Inductive Outcome :=
| Returned (r : Response)
| Thrown.

(** [NextResponse.json(payload)] and [NextResponse.json(payload, { status })]. *)
Definition json (p : Payload) : Outcome := Returned {| status := 200; payload := p |}.
Definition json_with (p : Payload) (st : nat) : Outcome :=
  Returned {| status := st; payload := p |}.

(** ** Collection operations *)

(** MongoDB's order on [createdAt]: a missing field sorts below every date. *)
Definition date_leb (a b : option Date) : bool :=
  match a, b with
  | None, _ => true
  | Some _, None => false
  | Some x, Some y => (x <=? y)%Z
  end.

(** [sort({ createdAt: -1 })]: the later document comes first. *)
Definition newer_first (x y : N * Note) : Prop :=
  date_leb (createdAt (snd y)) (createdAt (snd x)).

Global Instance newer_first_dec x y : Decision (newer_first x y).
Proof. unfold newer_first. apply _. Defined.

(** [find({ doctorId }).sort({ createdAt: -1 }).toArray()] *)
Definition find_by_doctor (who : string) (notes : Notes) : list (N * Note) :=
  merge_sort newer_first
    (List.filter (λ kv, String.eqb (doctorId (snd kv)) who) (map_to_list notes)).

(** [findOne({ _id, doctorId })] *)
Definition findOne (oid : ObjectId) (who : string) (notes : Notes) : option Note :=
  match notes !! oid with
  | Some n => if String.eqb (doctorId n) who then Some n else None
  | None => None
  end.

(** [insertOne(doc)] with the identifier the driver generated: a duplicate
    key is rejected with an exception. *)
Definition insertOne (oid : ObjectId) (doc : Note) (notes : Notes) : option Notes :=
  match notes !! oid with
  | Some _ => None
  | None => Some (<[oid := doc]> notes)
  end.

(** [updateOne({ _id }, { $set })] *)
Definition updateOne (oid : ObjectId) (set : Note → Note) (notes : Notes) : Notes :=
  alter set oid notes.

(** [deleteOne({ _id })] *)
Definition deleteOne (oid : ObjectId) (notes : Notes) : Notes :=
  delete oid notes.

(** The two shapes of the [$set] document of [PATCH], applied to a stored
    note: [title] and [updatedAt] always, then one content field. *)
Definition set_manual (t : JSON) (now : Date) (html : JSON) (n : Note) : Note :=
  {| doctorId := doctorId n; title := t; source := source n;
     contentHtml := html; ocrText := ocrText n;
     fileUrl := fileUrl n; fileName := fileName n; fileType := fileType n;
     filePublicId := filePublicId n;
     createdAt := createdAt n; updatedAt := Some now |}.

Definition set_scan (t : JSON) (now : Date) (text : JSON) (n : Note) : Note :=
  {| doctorId := doctorId n; title := t; source := source n;
     contentHtml := contentHtml n; ocrText := text;
     fileUrl := fileUrl n; fileName := fileName n; fileType := fileType n;
     filePublicId := filePublicId n;
     createdAt := createdAt n; updatedAt := Some now |}.

(** [updateData], built from the note [findOne] returned. *)
Definition updateData (existingNote : Note) (title contentHtml ocrText : JsValue)
    (now : Date) : Note → Note :=
  if strict_eq_str (source existingNote) "manual"
  then set_manual (bson title) now (nullish_or contentHtml (JStr ""))
  else set_scan (bson title) now (nullish_or ocrText (JStr "")).

(** ** The handlers of [route.ts] *)

Section NotesRoute.

(** The driver's [new ObjectId(v)]: [None] when the constructor throws. *)
Variable new_ObjectId : JsValue → option ObjectId.
(** [oid.toString()] *)
Variable toString : ObjectId → string.

Definition unauthorized : Outcome := json_with (ErrorJson "Unauthorized") 401.
Definition missing_fields : Outcome := json_with (ErrorJson "Missing required fields.") 400.
Definition missing_id : Outcome := json_with (ErrorJson "Missing note ID") 400.
Definition not_found : Outcome := json_with (ErrorJson "Note not found or unauthorized") 404.

Definition serialize (kv : N * Note) : NoteJson :=
  let note := snd kv in
  {| json_id := toString (fst kv);
     json_doctorId := doctorId note;
     json_title := title note;
     json_source := source note;
     json_contentHtml := contentHtml note;
     json_ocrText := ocrText note;
     json_fileUrl := fileUrl note;
     json_fileName := fileName note;
     json_fileType := fileType note;
     json_filePublicId := filePublicId note;
     json_createdAt :=
       match createdAt note with
       | Some t => Some (Iso t)
       | None => None
       end;
     json_updatedAt := updatedAt note |}.

Definition GET (session : option Session) (notes : Notes) : Outcome * Notes :=
  match caller session with
  | None => (unauthorized, notes)
  | Some who =>
      let found := find_by_doctor who notes in
      let serialized := serialize <$> found in
      (json (NotesJson serialized), notes)
  end.

(** [now] is the value of [new Date()], [fresh] the [_id] the driver
    generates for the inserted document. *)
Definition POST (session : option Session) (body : JSON)
    (now : Date) (fresh : ObjectId) (notes : Notes) : Outcome * Notes :=
  match caller session with
  | None => (unauthorized, notes)
  | Some who =>
      match destructure body with
      | None => (Thrown, notes)
      | Some field =>
          if negb (truthy (field "title")) || negb (truthy (field "source"))
          then (missing_fields, notes)
          else
            let doc :=
              {| doctorId := who;
                 title := bson (field "title");
                 source := bson (field "source");
                 contentHtml := nullish_or (field "contentHtml") (JStr "");
                 ocrText := nullish_or (field "ocrText") (JStr "");
                 fileUrl := nullish_or (field "fileUrl") (JStr "");
                 fileName := nullish_or (field "fileName") (JStr "");
                 fileType := nullish_or (field "fileType") (JStr "");
                 filePublicId := nullish_or (field "filePublicId") (JStr "");
                 createdAt := Some now;
                 updatedAt := None |} in
            match insertOne fresh doc notes with
            | None => (Thrown, notes)
            | Some notes' => (json (IdJson (toString fresh)), notes')
            end
      end
  end.

Definition PATCH (session : option Session) (body : JSON)
    (now : Date) (notes : Notes) : Outcome * Notes :=
  match caller session with
  | None => (unauthorized, notes)
  | Some who =>
      match destructure body with
      | None => (Thrown, notes)
      | Some field =>
          let id := field "id" in
          let title := field "title" in
          if negb (truthy id) || negb (truthy title)
          then (missing_fields, notes)
          else
            match new_ObjectId id with
            | None => (Thrown, notes)
            | Some oid =>
                match findOne oid who notes with
                | None => (not_found, notes)
                | Some existingNote =>
                    let update :=
                      updateData existingNote title
                        (field "contentHtml") (field "ocrText") now in
                    match new_ObjectId id with
                    | None => (Thrown, notes)
                    | Some oid' => (json SuccessJson, updateOne oid' update notes)
                    end
                end
            end
      end
  end.

Definition DELETE (session : option Session) (body : JSON)
    (notes : Notes) : Outcome * Notes :=
  match caller session with
  | None => (unauthorized, notes)
  | Some who =>
      match destructure body with
      | None => (Thrown, notes)
      | Some field =>
          let id := field "id" in
          if negb (truthy id)
          then (missing_id, notes)
          else
            match new_ObjectId id with
            | None => (Thrown, notes)
            | Some oid =>
                match findOne oid who notes with
                | None => (not_found, notes)
                | Some _ =>
                    match new_ObjectId id with
                    | None => (Thrown, notes)
                    | Some oid' => (json SuccessJson, deleteOne oid' notes)
                    end
                end
            end
      end
  end.

End NotesRoute.

(** ** An [ObjectId] constructor for concrete runs

    The constructor of the driver (bson 6) on what a JSON body can hold.
    A string of 24 hexadecimal characters denotes an identifier and any
    other string makes it throw.  An object with an [id] member stands for
    that member when it is a string, and makes it throw otherwise (JSON
    holds no buffer and no function); a boolean, an array or an object
    without [id] makes it throw.  For a number the driver generates an
    identifier: four bytes for the number read as seconds, then five random
    bytes and a counter of three; it does the same with the time of the
    call for [null] and [undefined], which no handler passes on.  The
    random bytes and the counter are taken as zero here, one of the
    outcomes of a call. *)

Definition hex_digit (c : ascii) : option N :=
  let n := N_of_ascii c in
  if (48 <=? n)%N && (n <=? 57)%N then Some (n - 48)%N
  else if (97 <=? n)%N && (n <=? 102)%N then Some (n - 87)%N
  else if (65 <=? n)%N && (n <=? 70)%N then Some (n - 55)%N
  else None.

Fixpoint parse_hex (s : string) (acc : N) : option N :=
  match s with
  | EmptyString => Some acc
  | String c rest =>
      match hex_digit c with
      | Some d => parse_hex rest (16 * acc + d)%N
      | None => None
      end
  end.

(** [workingId.length === 24 && checkForHexRegExp.test(workingId)] *)
Definition of_hex (s : string) : option N :=
  if Nat.eqb (String.length s) 24 then parse_hex s 0%N else None.

(** [ObjectId.generate(time)]: the time is written as an unsigned 32-bit
    integer. *)
Definition generated (time : Q) : N :=
  (Z.to_N (Z.quot (Qnum time) (Zpos (Qden time)) mod 2 ^ 32) * 2 ^ 64)%N.

Definition hex_ObjectId (v : JsValue) : option N :=
  match v with
  | Some (JStr s) => of_hex s
  | Some (JObj fields) =>
      match prop (JObj fields) "id" with
      | Some (JStr s) => of_hex s
      | _ => None
      end
  | Some (JNum time) => Some (generated time)
  | Some JNull | None => Some (generated 0)
  | Some (JBool _) | Some (JArr _) => None
  end.

Definition hex_char (d : N) : ascii :=
  if (d <? 10)%N then ascii_of_N (48 + d) else ascii_of_N (87 + d).

Fixpoint to_hex (digits : nat) (n : N) (acc : string) : string :=
  match digits with
  | O => acc
  | S k => to_hex k (n / 16)%N (String (hex_char (n mod 16)%N) acc)
  end.

Definition hex_toString (oid : N) : string := to_hex 24 oid "".

(** ** Vocabulary of the properties *)

(** The strings that are no identifier for any version of the driver:
    neither 24 hexadecimal characters nor 12 characters, which older
    versions read as 12 bytes. *)
Fixpoint all_hex (s : string) : bool :=
  match s with
  | EmptyString => true
  | String c rest =>
      match hex_digit c with
      | Some _ => all_hex rest
      | None => false
      end
  end.

Definition malformed (s : string) : bool :=
  negb (Nat.eqb (String.length s) 24 && all_hex s)
  && negb (Nat.eqb (String.length s) 12).

(** The instant an ISO text stands for. *)
Definition instant (i : IsoString) : Z :=
  match i with
  | Iso t => t
  end.


(** The invariant of the data model: the content field that does not belong
    to the origin of the note is empty. *)
Definition origin_invariant (n : Note) : Prop :=
  (source n = JStr "manual" → ocrText n = JStr "")
  ∧ (source n = JStr "scan" → contentHtml n = JStr "").

(** ** Sample requests *)

Definition doctor (e : string) : option Session :=
  Some {| user := Some {| email := Some e |} |}.

Definition visit1 : Note :=
  {| doctorId := "alice@lief.care";
     title := JStr "Visit 1";
     source := JStr "manual";
     contentHtml := JStr "<p>ok</p>";
     ocrText := JStr "";
     fileUrl := JStr ""; fileName := JStr ""; fileType := JStr "";
     filePublicId := JStr "";
     createdAt := Some 1000%Z;
     updatedAt := None |}.

Definition one_note : gmap N Note := <[1%N := visit1]> ∅.

Definition id1 : string := "000000000000000000000001".




Definition bad_id : JSON := JObj [("id", JStr "not-an-object-id"); ("title", JStr "x")].

Definition bad_id_only : JSON := JObj [("id", JStr "not-an-object-id")].


(** An identifier given as an object, as the driver's [ObjectIdLike]. *)
Definition id1_as_object : JSON := JObj [("id", JObj [("id", JStr id1)])].


Definition draft_manual : JSON :=
  JObj [("title", JStr "Visit 1"); ("source", JStr "manual");
        ("contentHtml", JStr "<p>ok</p>")].

End Route.

(** * The scan form of the page: [runOcrOnImage] and [handleScanFile] *)

Module Page.

(** ** Strings and numbers of the component *)

(** A JavaScript string whose content matters (the OCR text): its UTF-16
    code units. *)
Abbreviation JsString := (list N).

(** An ASCII literal as a JavaScript string. *)
Definition js (s : string) : JsString := N_of_ascii <$> list_ascii_of_string s.

(** The code units [String.prototype.trim] strips: WhiteSpace and
    LineTerminator of ECMAScript. *)
Definition isWhiteSpace (c : N) : bool :=
  ((9 <=? c) && (c <=? 13) || (c =? 32) || (c =? 160) || (c =? 5760)
   || (8192 <=? c) && (c <=? 8202) || (c =? 8232) || (c =? 8233)
   || (c =? 8239) || (c =? 8287) || (c =? 12288) || (c =? 65279))%N.

Fixpoint trimStart (s : JsString) : JsString :=
  match s with
  | c :: rest => if isWhiteSpace c then trimStart rest else s
  | [] => []
  end.

Definition trimEnd (s : JsString) : JsString := reverse (trimStart (reverse s)).

Definition trim (s : JsString) : JsString := trimEnd (trimStart s).

(** A number is the rational it stands for ([NaN] and the infinities are
    left out).  [Math.round]: the nearest integer, halves upwards; it is
    exact on every number. *)
Definition Math_round (x : Q) : Z := Qfloor (x + (1 # 2)).

(** Arithmetic on numbers is that of IEEE 754 doubles: the exact result
    rounded to the nearest number with 53 significant bits, ties to the
    even one. *)

Definition pow2 (e : Z) : Q := (2 ^ e)%Q.

(** The exponent of a positive rational: [2^e <= x < 2^(e+1)]. *)
Definition exponent (x : Q) : Z :=
  let e := (Z.log2 (Qnum x) - Z.log2 (Zpos (Qden x)))%Z in
  if Qle_bool (pow2 e) x then e else (e - 1)%Z.

(** The nearest integer, ties to the even one. *)
Definition nearest_even (m : Q) : Z :=
  let f := Qfloor m in
  match Qcompare (m - inject_Z f) (1 # 2) with
  | Lt => f
  | Gt => (f + 1)%Z
  | Eq => if Z.even f then f else (f + 1)%Z
  end.

(** The double nearest to a positive rational. *)
Definition nearest (x : Q) : Q :=
  let e := exponent x in
  (inject_Z (nearest_even (x * pow2 (52 - e))) * pow2 (e - 52))%Q.

(** The double nearest to a rational.  The exponent is not bounded: the
    result is that of the code between the smallest normal double,
    [2^-1022], and the largest one; below that [Math.round] gives 0 here as
    in the code. *)
Definition binary64 (x : Q) : Q :=
  match Qnum x with
  | Z0 => 0
  | Zpos _ => nearest x
  | Zneg _ => - nearest (- x)
  end.

(** [x * y] *)
Definition times (x y : Q) : Q := binary64 (x * y).

(** ** Files, messages and the state of the form *)

Record File := { name : string; type : string }.

(** What [runOcrOnImage] passes to [worker.recognize]: the data URL of a
    rendered page or the file itself. *)
Inductive OcrSource :=
| DataUrl (url : string)
| Blob (file : File).

(** A message of the tesseract.js logger. *)
Record Message := { status : string; progress : Q }.

(** The [useState] cells the scan form writes. *)
Record UiState := {
  scanFile : option File;
  scanPreview : option string;
  ocrText : JsString;
  ocrProgress : Z;
  ocrBusy : bool
}.

Definition setScanFile (v : option File) (st : UiState) : UiState :=
  {| scanFile := v; scanPreview := scanPreview st; ocrText := ocrText st;
     ocrProgress := ocrProgress st; ocrBusy := ocrBusy st |}.

Definition setScanPreview (v : option string) (st : UiState) : UiState :=
  {| scanFile := scanFile st; scanPreview := v; ocrText := ocrText st;
     ocrProgress := ocrProgress st; ocrBusy := ocrBusy st |}.

Definition setOcrText (v : JsString) (st : UiState) : UiState :=
  {| scanFile := scanFile st; scanPreview := scanPreview st; ocrText := v;
     ocrProgress := ocrProgress st; ocrBusy := ocrBusy st |}.

Definition setOcrProgress (v : Z) (st : UiState) : UiState :=
  {| scanFile := scanFile st; scanPreview := scanPreview st; ocrText := ocrText st;
     ocrProgress := v; ocrBusy := ocrBusy st |}.

Definition setOcrBusy (v : bool) (st : UiState) : UiState :=
  {| scanFile := scanFile st; scanPreview := scanPreview st; ocrText := ocrText st;
     ocrProgress := ocrProgress st; ocrBusy := v |}.

(** ** Asynchronous functions

    An [async] function as the tree of what it does next: write a state
    cell, or wait for one of the outside operations the page awaits and go
    on with how that settled. *)

Inductive Settled (A : Type) : Type :=
| Fulfilled (value : A)
| Rejected.
Arguments Fulfilled {A} value.
Arguments Rejected {A}.

(** A tesseract.js worker, as far as the page is concerned: the logger it
    was created with. *)
Record Worker := { worker_logger : Message → UiState → UiState }.

Inductive Async (A : Type) : Type :=
| Ret (a : A)
| Throw
| SetState (update : UiState → UiState) (next : Async A)
| ReadAsDataURL (file : File) (k : Settled string → Async A)
| RenderFirstPage (file : File) (k : Settled string → Async A)
| ImportTesseract (k : Settled unit → Async A)
| CreateWorker (logger : Message → UiState → UiState) (k : Settled Worker → Async A)
| Recognize (worker : Worker) (image : OcrSource) (k : Settled JsString → Async A)
| Terminate (worker : Worker) (k : Settled unit → Async A).
Arguments Ret {A} a.
Arguments Throw {A}.
Arguments SetState {A} update next.
Arguments ReadAsDataURL {A} file k.
Arguments RenderFirstPage {A} file k.
Arguments ImportTesseract {A} k.
Arguments CreateWorker {A} logger k.
Arguments Recognize {A} worker image k.
Arguments Terminate {A} worker k.

(** [await p]: the value of a fulfilled promise, a throw for a rejected one. *)
Definition await {A} (r : Settled A) : Async A :=
  match r with
  | Fulfilled a => Ret a
  | Rejected => Throw
  end.

Fixpoint bind {A B} (t : Async A) (f : A → Async B) : Async B :=
  match t with
  | Ret a => f a
  | Throw => Throw
  | SetState u next => SetState u (bind next f)
  | ReadAsDataURL file k => ReadAsDataURL file (λ r, bind (k r) f)
  | RenderFirstPage file k => RenderFirstPage file (λ r, bind (k r) f)
  | ImportTesseract k => ImportTesseract (λ r, bind (k r) f)
  | CreateWorker lg k => CreateWorker lg (λ r, bind (k r) f)
  | Recognize w image k => Recognize w image (λ r, bind (k r) f)
  | Terminate w k => Terminate w (λ r, bind (k r) f)
  end.

Notation "x ⇐ t1 ;; t2" := (bind t1 (λ x, t2))
  (at level 100, t1 at next level, right associativity).
Notation "t1 ;; t2" := (bind t1 (λ _, t2))
  (at level 100, right associativity).

(** [try { t } catch { handler }] *)
Fixpoint try_catch {A} (t : Async A) (handler : Async A) : Async A :=
  match t with
  | Ret a => Ret a
  | Throw => handler
  | SetState u next => SetState u (try_catch next handler)
  | ReadAsDataURL file k => ReadAsDataURL file (λ r, try_catch (k r) handler)
  | RenderFirstPage file k => RenderFirstPage file (λ r, try_catch (k r) handler)
  | ImportTesseract k => ImportTesseract (λ r, try_catch (k r) handler)
  | CreateWorker lg k => CreateWorker lg (λ r, try_catch (k r) handler)
  | Recognize w image k => Recognize w image (λ r, try_catch (k r) handler)
  | Terminate w k => Terminate w (λ r, try_catch (k r) handler)
  end.

(** [try { t } finally { fin }]: [fin] runs on both exits and an exception
    goes on after it. *)
Fixpoint finally {A} (t : Async A) (fin : Async unit) : Async A :=
  match t with
  | Ret a => fin ;; Ret a
  | Throw => fin ;; Throw
  | SetState u next => SetState u (finally next fin)
  | ReadAsDataURL file k => ReadAsDataURL file (λ r, finally (k r) fin)
  | RenderFirstPage file k => RenderFirstPage file (λ r, finally (k r) fin)
  | ImportTesseract k => ImportTesseract (λ r, finally (k r) fin)
  | CreateWorker lg k => CreateWorker lg (λ r, finally (k r) fin)
  | Recognize w image k => Recognize w image (λ r, finally (k r) fin)
  | Terminate w k => Terminate w (λ r, finally (k r) fin)
  end.

(** A call of a state setter. *)
Definition set (update : UiState → UiState) : Async unit := SetState update (Ret tt).

(** ** The functions of the page *)

(** [fileToBase64]: a promise around [FileReader.readAsDataURL]. *)
Definition fileToBase64 (file : File) : Async string :=
  ReadAsDataURL file await.

(** [renderPdfToImage]: pdf.js loads the document and renders page 1 at
    scale 2 to a canvas; it writes no state cell, so its awaits and its own
    [throw] are one outside operation here, settled with the PNG data URL
    or rejected. *)
Definition renderPdfToImage (file : File) : Async string :=
  RenderFirstPage file await.

(** The [logger] option of [createWorker]. *)
Definition logger (message : Message) (st : UiState) : UiState :=
  if String.eqb (status message) "recognizing text"
     && negb (Qeq_bool (progress message) 0)
  then setOcrProgress (Math_round (times (progress message) 100)) st
  else st.

Definition runOcrOnImage (image : OcrSource) : Async JsString :=
  _ ⇐ ImportTesseract await ;;
  worker ⇐ CreateWorker logger await ;;
  text ⇐ Recognize worker image await ;;
  _ ⇐ Terminate worker await ;;
  Ret text.

Definition fallback : JsString :=
  js "Unable to extract text. Please try a clearer scan.".

Definition handleScanFile (file : File) : Async unit :=
  set (setScanFile (Some file)) ;;
  set (setScanPreview None) ;;
  set (setOcrText (js "")) ;;
  set (setOcrProgress 0) ;;
  set (setOcrBusy true) ;;
  finally
    (try_catch
       (preview ⇐ fileToBase64 file ;;
        set (setScanPreview (Some preview)) ;;
        ocrSource ⇐ (if String.eqb (type file) "application/pdf"
                     then (url ⇐ renderPdfToImage file ;; Ret (DataUrl url))
                     else Ret (Blob file)) ;;
        text ⇐ runOcrOnImage ocrSource ;;
        set (setOcrText (trim text)))
       (set (setOcrText fallback)))
    (set (setOcrBusy false)).

(** ** Running a job

    The outside of the page during one job: how each awaited operation
    settles, and the messages the worker logs while it is awaited. *)

Record Environment := {
  readAsDataURL : File → Settled string;
  renderFirstPage : File → Settled string;
  importTesseract : Settled unit;
  createWorker : list Message * Settled unit;
  recognize : OcrSource → list Message * Settled JsString;
  terminate : list Message * Settled unit
}.

(** The operations a job asked the outside for. *)
Inductive Call :=
| CallReadAsDataURL (file : File)
| CallRenderFirstPage (file : File)
| CallImportTesseract
| CallCreateWorker
| CallRecognize (image : OcrSource)
| CallTerminate.

(** The state after each of the logged messages, in turn. *)
Fixpoint heard (lg : Message → UiState → UiState) (msgs : list Message)
    (st : UiState) : list UiState :=
  match msgs with
  | [] => []
  | m :: rest => lg m st :: heard lg rest (lg m st)
  end.

(** The state once all of them were logged. *)
Definition after (lg : Message → UiState → UiState) (msgs : list Message)
    (st : UiState) : UiState :=
  foldl (λ s m, lg m s) st msgs.

Definition made (lg : Message → UiState → UiState) (r : Settled unit) : Settled Worker :=
  match r with
  | Fulfilled _ => Fulfilled {| worker_logger := lg |}
  | Rejected => Rejected
  end.

(** What a finished job leaves: the states the form showed (one each time
    the job was suspended, one per logged message, and the last one), the
    operations it called, the final state and whether it returned
    ([Some]) or let an exception escape ([None]). *)
Record Run (A : Type) := {
  shown : list UiState;
  calls : list Call;
  final : UiState;
  result : option A
}.
Arguments shown {A} r.
Arguments calls {A} r.
Arguments final {A} r.
Arguments result {A} r.

Definition suspended {A} (st : UiState) (during : list UiState) (c : Call)
    (rest : Run A) : Run A :=
  {| shown := st :: during ++ shown rest;
     calls := c :: calls rest;
     final := final rest;
     result := result rest |}.

Fixpoint run {A} (env : Environment) (t : Async A) (st : UiState) : Run A :=
  match t with
  | Ret a => {| shown := [st]; calls := []; final := st; result := Some a |}
  | Throw => {| shown := [st]; calls := []; final := st; result := None |}
  | SetState u next => run env next (u st)
  | ReadAsDataURL file k =>
      suspended st [] (CallReadAsDataURL file)
        (run env (k (readAsDataURL env file)) st)
  | RenderFirstPage file k =>
      suspended st [] (CallRenderFirstPage file)
        (run env (k (renderFirstPage env file)) st)
  | ImportTesseract k =>
      suspended st [] CallImportTesseract
        (run env (k (importTesseract env)) st)
  | CreateWorker lg k =>
      let msgs := fst (createWorker env) in
      suspended st (heard lg msgs st) CallCreateWorker
        (run env (k (made lg (snd (createWorker env)))) (after lg msgs st))
  | Recognize w image k =>
      let msgs := fst (recognize env image) in
      suspended st (heard (worker_logger w) msgs st) (CallRecognize image)
        (run env (k (snd (recognize env image))) (after (worker_logger w) msgs st))
  | Terminate w k =>
      let msgs := fst (terminate env) in
      suspended st (heard (worker_logger w) msgs st) CallTerminate
        (run env (k (snd (terminate env))) (after (worker_logger w) msgs st))
  end.

(** ** Several jobs on one form

    Nothing in the page stops a second [handleScanFile] from starting while
    an earlier one is suspended: the file input stays enabled.  A job then
    runs up to its next [await], and is resumed when that settles. *)

(** The synchronous part: up to the next [await] or to the end. *)
Fixpoint settle {A} (t : Async A) (st : UiState) : UiState * Async A :=
  match t with
  | SetState u next => settle next (u st)
  | _ => (st, t)
  end.

(** How what the job awaits settles: its continuation, given the answer of
    the outside. *)
Definition answer {A} (env : Environment) (t : Async A) : Async A :=
  match t with
  | ReadAsDataURL file k => k (readAsDataURL env file)
  | RenderFirstPage file k => k (renderFirstPage env file)
  | ImportTesseract k => k (importTesseract env)
  | CreateWorker lg k => k (made lg (snd (createWorker env)))
  | Recognize w image k => k (snd (recognize env image))
  | Terminate w k => k (snd (terminate env))
  | _ => t
  end.

(** The messages the worker logged while the job was waiting. *)
Definition logged {A} (env : Environment) (t : Async A) (st : UiState) : UiState :=
  match t with
  | CreateWorker lg _ => after lg (fst (createWorker env)) st
  | Recognize w image _ => after (worker_logger w) (fst (recognize env image)) st
  | Terminate w _ => after (worker_logger w) (fst (terminate env)) st
  | _ => st
  end.

(** The awaited operation settles and the job goes on to its next [await]. *)
Definition resume {A} (env : Environment) (t : Async A) (st : UiState)
    : UiState * Async A :=
  settle (answer env t) (logged env t st).

Definition in_flight {A} (t : Async A) : bool :=
  match t with
  | Ret _ => false
  | Throw => false
  | _ => true
  end.

Record Job := { pending : Async unit; outside : Environment }.

Record Form := { ui : UiState; jobs : list Job }.

Inductive Action :=
| Select (file : File) (env : Environment)
| Settle (job : nat).

(** [Select]: the [onChange] of the file input, [void handleScanFile(file)].
    [Settle j]: what job [j] awaits settles. *)
Definition act (s : Form) (a : Action) : Form :=
  match a with
  | Select file env =>
      let started := settle (handleScanFile file) (ui s) in
      {| ui := fst started;
         jobs := jobs s ++ [{| pending := snd started; outside := env |}] |}
  | Settle j =>
      match jobs s !! j with
      | Some job =>
          let resumed := resume (outside job) (pending job) (ui s) in
          {| ui := fst resumed;
             jobs := <[j := {| pending := snd resumed; outside := outside job |}]> (jobs s) |}
      | None => s
      end
  end.

Definition acts (s : Form) (l : list Action) : Form := foldl act s l.

(** How many jobs are suspended at an [await]. *)
Definition active (s : Form) : nat :=
  length (List.filter (λ j, in_flight (pending j)) (jobs s)).

(** ** Vocabulary of the properties *)

(** What [handleScanFile] hands to the recognizer, when it gets that far. *)
Definition ocr_input (env : Environment) (file : File) : Settled OcrSource :=
  match readAsDataURL env file with
  | Rejected => Rejected
  | Fulfilled _ =>
      if String.eqb (type file) "application/pdf"
      then match renderFirstPage env file with
           | Fulfilled url => Fulfilled (DataUrl url)
           | Rejected => Rejected
           end
      else Fulfilled (Blob file)
  end.

(** Recognition succeeds when nothing that is awaited rejects; it then
    yields the text of [worker.recognize]. *)
Definition recognized (env : Environment) (file : File) : Settled JsString :=
  match ocr_input env file with
  | Rejected => Rejected
  | Fulfilled image =>
      match importTesseract env, snd (createWorker env),
            snd (recognize env image), snd (terminate env) with
      | Fulfilled _, Fulfilled _, Fulfilled text, Fulfilled _ => Fulfilled text
      | _, _, _, _ => Rejected
      end
  end.

(** The transcript the job of [file] ends with. *)
Definition transcript (env : Environment) (file : File) : JsString :=
  match recognized env file with
  | Fulfilled text => trim text
  | Rejected => fallback
  end.

(** The messages of the sub-stage whose progress the logger republishes. *)
Definition recognizing (m : Message) : bool :=
  String.eqb (status m) "recognizing text".

(** The recognizer's side of the progress contract: within the
    ["recognizing text"] messages of a job the progress lies in [0,1] and
    never decreases. *)
Definition steady (msgs : list Message) : Prop :=
  Forall (λ m, 0 <= progress m /\ progress m <= 1)%Q (List.filter recognizing msgs)
  ∧ StronglySorted (λ a b, progress a <= progress b)%Q (List.filter recognizing msgs).

Definition well_behaved (env : Environment) : Prop :=
  ∀ image,
    steady (fst (createWorker env) ++ fst (recognize env image) ++ fst (terminate env)).

(** The media types the file input asks the picker for:
    [accept="image/*,application/pdf"]. *)
Definition accepted (file : File) : bool :=
  String.prefix "image/" (type file) || String.eqb (type file) "application/pdf".

(** What is left of a job at its next [await], the state left aside. *)
Fixpoint strip {A} (t : Async A) : Async A :=
  match t with
  | SetState _ next => strip next
  | _ => t
  end.

Definition next {A} (env : Environment) (t : Async A) : Async A :=
  strip (answer env t).

(** What is left after [k] more of its awaits have settled. *)
Fixpoint advance {A} (env : Environment) (k : nat) (t : Async A) : Async A :=
  match k with
  | O => t
  | S k' => next env (advance env k' t)
  end.

(** Whether job [j] of the form is suspended at an [await]. *)
Definition busy (s : Form) (j : nat) : bool :=
  match jobs s !! j with
  | Some job => in_flight (pending job)
  | None => false
  end.

(** A list of percentages that rises from [lo] to [hi]. *)
Definition rising (lo : Z) (l : list Z) (hi : Z) : Prop :=
  (lo ≤ hi)%Z ∧ StronglySorted Z.le l ∧ Forall (λ x, lo ≤ x ≤ hi)%Z l.

(** The percentage on show is at most what any message still to come
    announces. *)
Definition below (p : Z) (msgs : list Message) : Prop :=
  Forall (λ m, p ≤ Math_round (times (progress m) 100))%Z (List.filter recognizing msgs).

(** The files selected by a sequence of actions, each with its outside. *)
Definition selections (l : list Action) : list (File * Environment) :=
  omap (λ a, match a with
             | Select file env => Some (file, env)
             | Settle _ => None
             end) l.

(** [job] is the job started for the selection [sel], at some point of its
    course. *)
Definition job_of (sel : File * Environment) (job : Job) : Prop :=
  outside job = snd sel
  ∧ ∃ k, pending job = advance (snd sel) k (strip (handleScanFile (fst sel))).

(** What the logger publishes for a message, when it publishes anything:
    the argument of its [setOcrProgress]. *)
Definition published (m : Message) : option Z :=
  if recognizing m && negb (Qeq_bool (progress m) 0)
  then Some (Math_round (times (progress m) 100))
  else None.

(** The messages the worker logs while a job waits at [t]. *)
Definition messages {A} (env : Environment) (t : Async A) : list Message :=
  match t with
  | CreateWorker _ _ => fst (createWorker env)
  | Recognize _ image _ => fst (recognize env image)
  | Terminate _ _ => fst (terminate env)
  | _ => []
  end.

(** The messages the worker of job [j] logs when [a] is done to the form. *)
Definition hears (s : Form) (a : Action) (j : nat) : list Message :=
  match a with
  | Select _ _ => []
  | Settle i =>
      if Nat.eqb i j
      then match jobs s !! j with
           | Some job => messages (outside job) (pending job)
           | None => []
           end
      else []
  end.

(** All the messages the worker of job [j] logs in a course of actions. *)
Fixpoint heard_by (s : Form) (l : list Action) (j : nat) : list Message :=
  match l with
  | [] => []
  | a :: rest => hears s a j ++ heard_by (act s a) rest j
  end.

(** The messages the worker of a job of [file] logs during the first [k]
    awaits of the job. *)
Fixpoint heard_until (env : Environment) (file : File) (k : nat) : list Message :=
  match k with
  | O => []
  | S k' =>
      heard_until env file k'
      ++ messages env (advance env k' (strip (handleScanFile file)))
  end.

(** ** Sample jobs *)

Definition blank : UiState :=
  {| scanFile := None; scanPreview := None; ocrText := js "";
     ocrProgress := 0; ocrBusy := false |}.

Definition idle : Form := {| ui := blank; jobs := [] |}.

Definition recognizing_at (p : Q) : Message :=
  {| status := "recognizing text"; progress := p |}.

(** An outside in which every operation succeeds and the recognizer reads
    [text], reporting progress on the way. *)
Definition reads (text : string) : Environment :=
  {| readAsDataURL := λ _, Fulfilled "data:application/octet-stream;base64,AAAA";
     renderFirstPage := λ _, Fulfilled "data:image/png;base64,AAAA";
     importTesseract := Fulfilled tt;
     createWorker := ([{| status := "loading tesseract core"; progress := 1 |}], Fulfilled tt);
     recognize := λ _, ([recognizing_at 0; recognizing_at (1 # 2); recognizing_at 1],
                        Fulfilled (js text));
     terminate := ([], Fulfilled tt) |}.

(** An outside in which the recognizer reads [text] and reports its
    progress once, at three tenths. *)
Definition glimpses (text : string) : Environment :=
  {| readAsDataURL := λ _, Fulfilled "data:application/octet-stream;base64,AAAA";
     renderFirstPage := λ _, Fulfilled "data:image/png;base64,AAAA";
     importTesseract := Fulfilled tt;
     createWorker := ([], Fulfilled tt);
     recognize := λ _, ([recognizing_at (3 # 10)], Fulfilled (js text));
     terminate := ([], Fulfilled tt) |}.

(** An outside in which the recognizer cannot decode what it is given. *)
Definition undecodable : Environment :=
  {| readAsDataURL := λ _, Fulfilled "data:text/plain;base64,AAAA";
     renderFirstPage := λ _, Rejected;
     importTesseract := Fulfilled tt;
     createWorker := ([], Fulfilled tt);
     recognize := λ _, ([], Rejected);
     terminate := ([], Fulfilled tt) |}.

Definition scanA : File := {| name := "a.png"; type := "image/png" |}.
Definition scanB : File := {| name := "b.png"; type := "image/png" |}.
Definition referral : File := {| name := "referral.pdf"; type := "application/pdf" |}.
Definition notes_txt : File := {| name := "notes.txt"; type := "text/plain" |}.

(** A second file is selected while the first one is being recognized; the
    second job finishes, then the recognition of the first one resolves. *)
Definition overtaken : list Action :=
  [Select scanA (reads "first scan"); Settle 0; Settle 0; Settle 0;
   Select scanB (reads "second scan");
   Settle 1; Settle 1; Settle 1; Settle 1; Settle 1;
   Settle 0; Settle 0].

(** A second file is selected while the first one is being recognized;
    the recognition of the first one resolves, then that of the second. *)
Definition overlapping : list Action :=
  [Select scanA (reads "first scan"); Settle 0; Settle 0; Settle 0;
   Select scanB (glimpses "second scan"); Settle 1; Settle 1; Settle 1;
   Settle 0;
   Settle 1].

End Page.

(** * The upload route: [app/api/upload/route.ts] *)

Module Upload.
Import Page.

(** ** The public identifier of an upload *)

(** The code units the expression [/[^a-zA-Z0-9.-]/g] leaves alone. *)
Definition isSafe (c : N) : bool :=
  ((97 <=? c) && (c <=? 122) || (65 <=? c) && (c <=? 90)
   || (48 <=? c) && (c <=? 57) || (c =? 46) || (c =? 45))%N.

(** [name.replace(/[^a-zA-Z0-9.-]/g, "_")]: without the [u] flag the
    expression is matched code unit by code unit. *)
Definition sanitize (name : JsString) : JsString :=
  (λ c, if isSafe c then c else 95%N) <$> name.

(** A non-negative integer in a template literal. *)
Definition decimal (n : N) : JsString :=
  js (NilZero.string_of_uint (N.to_uint n)).

(** [`${Date.now()}_${file.name.replace(...)}`] *)
Definition public_id_of (now : N) (name : JsString) : JsString :=
  decimal now ++ js "_" ++ sanitize name.

(** [`lief_notes/${session.user?.email || "unknown"}`] *)
Definition folder_of (session : option Route.Session) : string :=
  "lief_notes/" +:+ match Route.session_email session with
                    | Some e => if String.eqb e "" then "unknown" else e
                    | None => "unknown"
                    end.

(** ** The request and the outside *)

(** What was thrown: an [Error] with its message, or something else. *)
Inductive Exception :=
| ErrorWith (message : string)
| NotAnError.

Inductive Result (A : Type) : Type :=
| Ok (value : A)
| Err (e : Exception).
Arguments Ok {A} value.
Arguments Err {A} e.

(** An uploaded file: its name and how [arrayBuffer()] settles. *)
Record Upload := { name : JsString; arrayBuffer : Result (list N) }.

(** [formData.get("file")]: nothing, a text field, or a file. *)
Inductive FormValue :=
| NoValue
| TextValue (s : JsString)
| FileValue (file : Upload).

(** The options given to [cloudinary.uploader.upload_stream]. *)
Record Options := {
  resource_type : string;
  folder : string;
  public_id : JsString;
  overwrite : bool
}.

(** How the upload ends: [upload_stream] throws at once, or its callback
    is called with an error or with a result (whose fields may be
    missing). *)
Inductive Uploaded :=
| UploadThrew
| UploadError (message : string)
| UploadResult (secure_url public_id : option string).

Inductive Payload :=
| ErrorJson (error : string)
| FailedJson (error details : string)
| UploadedJson (url publicId : option string).

Record Response := { status : nat; payload : Payload }.

Inductive Outcome :=
| Returned (r : Response)
| Thrown.

(** The [catch] block of the handler. *)
Definition failed (e : Exception) : Outcome :=
  Returned {| status := 500;
              payload := FailedJson "Upload failed"
                           match e with
                           | ErrorWith message => message
                           | NotAnError => "Unknown error"
                           end |}.

(** The message of the TypeError of calling what is not a function (V8). *)
Definition not_a_function : string := "file.arrayBuffer is not a function".

(** [POST]: [now] is [Date.now()], [formData] how [request.formData()]
    settles, [cloudinary] the upload service.  The promise around
    [upload_stream] is returned without [await], so a throw inside it is
    not caught by the [catch] block. *)
Definition POST (session : option Route.Session) (now : N)
    (formData : Result FormValue)
    (cloudinary : Options → list N → Uploaded) : Outcome :=
  match Route.caller session with
  | None => Returned {| status := 401; payload := ErrorJson "Unauthorized" |}
  | Some _ =>
      match formData with
      | Err e => failed e
      | Ok NoValue =>
          Returned {| status := 400; payload := ErrorJson "No file provided" |}
      | Ok (TextValue s) =>
          match s with
          | [] => Returned {| status := 400; payload := ErrorJson "No file provided" |}
          | _ => failed (ErrorWith not_a_function)
          end
      | Ok (FileValue file) =>
          match arrayBuffer file with
          | Err e => failed e
          | Ok bytes =>
              let options :=
                {| resource_type := "auto";
                   folder := folder_of session;
                   public_id := public_id_of now (name file);
                   overwrite := false |} in
              match cloudinary options bytes with
              | UploadThrew => Thrown
              | UploadError message =>
                  Returned {| status := 500;
                              payload := FailedJson "Upload failed" message |}
              | UploadResult url publicId =>
                  Returned {| status := 200; payload := UploadedJson url publicId |}
              end
          end
      end
  end.

(** ** Sample uploads *)

Definition scan_of_ward : Upload :=
  {| name := js "ward 7 (final).png"; arrayBuffer := Ok [137; 80; 78; 71]%N |}.

Definition accepting : Options → list N → Uploaded :=
  λ options _, UploadResult (Some "https://res.cloudinary.com/demo/x.png") (Some "x").

End Upload.

(** * The rest of the page: loading, saving, editing and deleting notes *)

Module Client.
Import Page.

(** ** Requests and answers *)

Inductive Body :=
| NoBody
| JsonBody (json : Route.JSON)
| FormBody (file : File).

Record Request := { url : string; method : string; body : Body }.

(** How [fetch] settles: a response, with its [ok] flag and how its
    [json()] settles, or a rejection. *)
Inductive Fetched :=
| Response (ok : bool) (json : Settled Route.JSON)
| NetworkError.

(** [JSON.stringify] of an object literal, as the server parses it: members
    whose value is [undefined] are left out. *)
Definition stringify (members : list (string * Route.JsValue)) : Route.JSON :=
  Route.JObj (omap (λ kv, match snd kv with
                          | Some v => Some (fst kv, v)
                          | None => None
                          end) members).

(** ** The state cells *)

Record Listing := { notes : Route.JSON; loadingNotes : bool }.
Record Manual := { manualTitle : string; savingManual : bool }.
Record Scan := { scanTitle : string; cells : UiState; savingScan : bool }.
Record Editing := {
  editingNote : Route.JSON;
  editTitle : Route.JsValue;
  editContent : Route.JSON;
  savingEdit : bool
}.
Record Deleting := {
  deletingNote : Route.JSON;
  deleteConfirmation : string;
  deletingInProgress : bool
}.

(** The cells of [Home] these functions read and write; [null] is
    [JNull]. *)
Record Home := {
  listing : Listing;
  manual : Manual;
  scan : Scan;
  editing : Editing;
  deleting : Deleting
}.

Definition with_listing (f : Listing → Listing) (st : Home) : Home :=
  {| listing := f (listing st); manual := manual st; scan := scan st;
     editing := editing st; deleting := deleting st |}.
Definition with_manual (f : Manual → Manual) (st : Home) : Home :=
  {| listing := listing st; manual := f (manual st); scan := scan st;
     editing := editing st; deleting := deleting st |}.
Definition with_scan (f : Scan → Scan) (st : Home) : Home :=
  {| listing := listing st; manual := manual st; scan := f (scan st);
     editing := editing st; deleting := deleting st |}.
Definition with_editing (f : Editing → Editing) (st : Home) : Home :=
  {| listing := listing st; manual := manual st; scan := scan st;
     editing := f (editing st); deleting := deleting st |}.
Definition with_deleting (f : Deleting → Deleting) (st : Home) : Home :=
  {| listing := listing st; manual := manual st; scan := scan st;
     editing := editing st; deleting := f (deleting st) |}.

Definition setNotes (v : Route.JSON) : Home → Home :=
  with_listing (λ l, {| notes := v; loadingNotes := loadingNotes l |}).
Definition setLoadingNotes (v : bool) : Home → Home :=
  with_listing (λ l, {| notes := notes l; loadingNotes := v |}).
Definition setManualTitle (v : string) : Home → Home :=
  with_manual (λ m, {| manualTitle := v; savingManual := savingManual m |}).
Definition setSavingManual (v : bool) : Home → Home :=
  with_manual (λ m, {| manualTitle := manualTitle m; savingManual := v |}).
Definition setScanTitle (v : string) : Home → Home :=
  with_scan (λ s, {| scanTitle := v; cells := cells s; savingScan := savingScan s |}).
Definition setSavingScan (v : bool) : Home → Home :=
  with_scan (λ s, {| scanTitle := scanTitle s; cells := cells s; savingScan := v |}).
(** The five cells of the scan form, written with their own setters. *)
Definition setCell (update : UiState → UiState) : Home → Home :=
  with_scan (λ s, {| scanTitle := scanTitle s; cells := update (cells s);
                     savingScan := savingScan s |}).
Definition setEditingNote (v : Route.JSON) : Home → Home :=
  with_editing (λ e, {| editingNote := v; editTitle := editTitle e;
                        editContent := editContent e; savingEdit := savingEdit e |}).
Definition setEditTitle (v : Route.JsValue) : Home → Home :=
  with_editing (λ e, {| editingNote := editingNote e; editTitle := v;
                        editContent := editContent e; savingEdit := savingEdit e |}).
Definition setEditContent (v : Route.JSON) : Home → Home :=
  with_editing (λ e, {| editingNote := editingNote e; editTitle := editTitle e;
                        editContent := v; savingEdit := savingEdit e |}).
Definition setSavingEdit (v : bool) : Home → Home :=
  with_editing (λ e, {| editingNote := editingNote e; editTitle := editTitle e;
                        editContent := editContent e; savingEdit := v |}).
Definition setDeletingNote (v : Route.JSON) : Home → Home :=
  with_deleting (λ d, {| deletingNote := v;
                         deleteConfirmation := deleteConfirmation d;
                         deletingInProgress := deletingInProgress d |}).
Definition setDeleteConfirmation (v : string) : Home → Home :=
  with_deleting (λ d, {| deletingNote := deletingNote d;
                         deleteConfirmation := v;
                         deletingInProgress := deletingInProgress d |}).
Definition setDeletingInProgress (v : bool) : Home → Home :=
  with_deleting (λ d, {| deletingNote := deletingNote d;
                         deleteConfirmation := deleteConfirmation d;
                         deletingInProgress := v |}).

(** ** Handlers as state transformers that send requests and may throw *)

(** What a handler leaves: the state, the requests it sent, in order, and
    its value, [None] when it threw. *)
Record Reply (A : Type) := { now : Home; sent : list Request; value : option A }.
Arguments now {A} r.
Arguments sent {A} r.
Arguments value {A} r.

(** A handler, given how the network answers each request. *)
Definition Act (A : Type) : Type := (Request → Fetched) → Home → Reply A.

Definition ret {A} (a : A) : Act A :=
  λ _ st, {| now := st; sent := []; value := Some a |}.

Definition throw {A} : Act A :=
  λ _ st, {| now := st; sent := []; value := None |}.

Definition bind {A B} (m : Act A) (f : A → Act B) : Act B :=
  λ net st,
    let r := m net st in
    match value r with
    | Some a =>
        let r' := f a net (now r) in
        {| now := now r'; sent := sent r ++ sent r'; value := value r' |}
    | None => {| now := now r; sent := sent r; value := None |}
    end.

Notation "x ↤ m ;; k" := (bind m (λ x, k))
  (at level 100, m at next level, right associativity).
Notation "m ;;; k" := (bind m (λ _, k))
  (at level 100, right associativity).

(** [try { m } finally { fin }] *)
Definition finally {A} (m : Act A) (fin : Act unit) : Act A :=
  λ net st,
    let r := m net st in
    let r' := fin net (now r) in
    {| now := now r'; sent := sent r ++ sent r';
       value := match value r' with
                | Some _ => value r
                | None => None
                end |}.

(** A call of a state setter. *)
Definition set (update : Home → Home) : Act unit :=
  λ _ st, {| now := update st; sent := []; value := Some tt |}.

(** [await fetch(...)]: the response, or a throw when the request fails. *)
Definition fetch (r : Request) : Act (bool * Settled Route.JSON) :=
  λ net st,
    {| now := st; sent := [r];
       value := match net r with
                | Response ok json => Some (ok, json)
                | NetworkError => None
                end |}.

Definition await {A} (r : Settled A) : Act A :=
  match r with
  | Fulfilled a => ret a
  | Rejected => throw
  end.

(** [value.key], a TypeError on [null]. *)
Definition member (v : Route.JSON) (key : string) : Act Route.JsValue :=
  match v with
  | Route.JNull => throw
  | _ => ret (Route.prop v key)
  end.

(** ** The handlers *)

Section Handlers.

(** The text of a JavaScript string as a JSON string. *)
Variable text : JsString → string.

Definition get_notes : Request :=
  {| url := "/api/notes"; method := "GET"; body := NoBody |}.

Definition loadNotes (isAuthenticated : bool) : Act unit :=
  if negb isAuthenticated then ret tt
  else
    set (setLoadingNotes true) ;;;
    finally
      (response ↤ fetch get_notes ;;
       data ↤ await (snd response) ;;
       found ↤ member data "notes" ;;
       set (setNotes (Route.nullish_or found (Route.JArr []))))
      (set (setLoadingNotes false)).

(** [editor] is the TipTap editor, when there is one, with the HTML
    [getHTML()] returns.  The content of the editors is not among the cells
    of [Home]: [clearContent()] and [setContent()] write none of them and
    are left out, here and below. *)
Definition saveManualNote (isAuthenticated : bool) (editor : option string)
    : Act unit :=
  λ net st,
    match editor with
    | None => ret tt net st
    | Some html =>
        if String.eqb (manualTitle (manual st)) "" then ret tt net st
        else
          (set (setSavingManual true) ;;;
           finally
             (fetch {| url := "/api/notes"; method := "POST";
                       body := JsonBody (stringify
                         [("title", Some (Route.JStr (manualTitle (manual st))));
                          ("source", Some (Route.JStr "manual"));
                          ("contentHtml", Some (Route.JStr html))]) |} ;;;
              set (setManualTitle "") ;;;
              loadNotes isAuthenticated)
             (set (setSavingManual false))) net st
    end.

Definition saveScanNote (isAuthenticated : bool) : Act unit :=
  λ net st,
    match scanFile (cells (scan st)) with
    | None => ret tt net st
    | Some file =>
        if String.eqb (scanTitle (scan st)) "" then ret tt net st
        else
          (set (setSavingScan true) ;;;
           finally
             (uploadResponse ↤ fetch {| url := "/api/upload"; method := "POST";
                                        body := FormBody file |} ;;
              (if fst uploadResponse then ret tt else throw) ;;;
              uploadData ↤ await (snd uploadResponse) ;;
              fileUrl ↤ member uploadData "url" ;;
              filePublicId ↤ member uploadData "publicId" ;;
              fetch {| url := "/api/notes"; method := "POST";
                       body := JsonBody (stringify
                         [("title", Some (Route.JStr (scanTitle (scan st))));
                          ("source", Some (Route.JStr "scan"));
                          ("ocrText", Some (Route.JStr (text (ocrText (cells (scan st))))));
                          ("fileUrl", fileUrl);
                          ("filePublicId", filePublicId);
                          ("fileName", Some (Route.JStr (name file)));
                          ("fileType", Some (Route.JStr (type file)))]) |} ;;;
              set (setScanTitle "") ;;;
              set (setCell (setScanFile None)) ;;;
              set (setCell (setScanPreview None)) ;;;
              set (setCell (setOcrText (js ""))) ;;;
              set (setCell (setOcrProgress 0)) ;;;
              loadNotes isAuthenticated)
             (set (setSavingScan false))) net st
    end.

Definition startEditingNote (note : Route.JSON) : Act unit :=
  set (setEditingNote note) ;;;
  title ↤ member note "title" ;;
  set (setEditTitle title) ;;;
  source ↤ member note "source" ;;
  if Route.strict_eq_str (Route.bson source) "manual"
  then (contentHtml ↤ member note "contentHtml" ;;
        set (setEditContent (Route.nullish_or contentHtml (Route.JStr ""))))
  else (ocrText ↤ member note "ocrText" ;;
        set (setEditContent (Route.nullish_or ocrText (Route.JStr "")))).

Definition cancelEditingNote : Act unit :=
  set (setEditingNote Route.JNull) ;;;
  set (setEditTitle (Some (Route.JStr ""))) ;;;
  set (setEditContent (Route.JStr "")).

(** [editEditor] is the second TipTap editor, when there is one, with the
    HTML [getHTML()] returns. *)
Definition saveEditedNote (isAuthenticated : bool) (editEditor : option string)
    : Act unit :=
  λ net st,
    let note := editingNote (editing st) in
    if negb (Route.truthy (Some note)) || negb (Route.truthy (editTitle (editing st)))
    then ret tt net st
    else
      (set (setSavingEdit true) ;;;
       finally
         (id ↤ member note "_id" ;;
          source ↤ member note "source" ;;
          fetch {| url := "/api/notes"; method := "PATCH";
                   body := JsonBody (stringify
                     ([("id", id); ("title", editTitle (editing st))]
                      ++ (if Route.strict_eq_str (Route.bson source) "manual"
                          then [("contentHtml",
                                 Some (Route.JStr (default "" editEditor)))]
                          else [("ocrText", Some (editContent (editing st)))]))) |} ;;;
          cancelEditingNote ;;;
          loadNotes isAuthenticated)
         (set (setSavingEdit false))) net st.

Definition startDeletingNote (note : Route.JSON) : Act unit :=
  set (setDeletingNote note) ;;;
  set (setDeleteConfirmation "").

Definition cancelDeletingNote : Act unit :=
  set (setDeletingNote Route.JNull) ;;;
  set (setDeleteConfirmation "").

Definition confirmDeleteNote (isAuthenticated : bool) : Act unit :=
  λ net st,
    let note := deletingNote (deleting st) in
    if negb (String.eqb (deleteConfirmation (deleting st)) "Delete Note")
       || negb (Route.truthy (Some note))
    then ret tt net st
    else
      (set (setDeletingInProgress true) ;;;
       finally
         (id ↤ member note "_id" ;;
          response ↤ fetch {| url := "/api/notes"; method := "DELETE";
                              body := JsonBody (stringify [("id", id)]) |} ;;
          (if fst response then ret tt else throw) ;;;
          cancelDeletingNote ;;;
          loadNotes isAuthenticated)
         (set (setDeletingInProgress false))) net st.

End Handlers.

(** ** Vocabulary of the properties *)

(** The JSON of an element of the answer of [GET], as far as the page
    reads it. *)
Definition listed (j : Route.NoteJson) : Route.JSON :=
  Route.JObj [("_id", Route.JStr (Route.json_id j));
              ("title", Route.json_title j);
              ("source", Route.json_source j);
              ("contentHtml", Route.json_contentHtml j);
              ("ocrText", Route.json_ocrText j)].

(** The JSON bodies among the requests sent with a given method. *)
Definition bodies (m : string) (l : list Request) : list Route.JSON :=
  omap (λ r, if String.eqb (method r) m
             then match body r with
                  | JsonBody j => Some j
                  | _ => None
                  end
             else None) l.

(** The requests the handlers send. *)
Definition notes_request (m : string) (b : Route.JSON) : Request :=
  {| url := "/api/notes"; method := m; body := JsonBody b |}.

Definition upload_request (file : File) : Request :=
  {| url := "/api/upload"; method := "POST"; body := FormBody file |}.

(** ** Sample states *)

Definition empty_home : Home :=
  {| listing := {| notes := Route.JArr []; loadingNotes := false |};
     manual := {| manualTitle := ""; savingManual := false |};
     scan := {| scanTitle := ""; cells := blank; savingScan := false |};
     editing := {| editingNote := Route.JNull; editTitle := Some (Route.JStr "");
                   editContent := Route.JStr ""; savingEdit := false |};
     deleting := {| deletingNote := Route.JNull; deleteConfirmation := "";
                    deletingInProgress := false |} |}.

(** A network on which every request succeeds with an empty object. *)
Definition agreeable : Request → Fetched :=
  λ _, Response true (Fulfilled (Route.JObj [])).

(** A network on which every request is refused. *)
Definition refusing : Request → Fetched :=
  λ _, Response false (Fulfilled (Route.JObj [("error", Route.JStr "Unauthorized")])).

(** ASCII text of a JavaScript string. *)
Definition ascii_text (s : JsString) : string :=
  string_of_list_ascii (ascii_of_N <$> s).

(** A network on which the upload succeeds and every other request is
    refused. *)
Definition uploads_only : Request → Fetched :=
  λ r, if String.eqb (url r) "/api/upload"
       then Response true (Fulfilled (Route.JObj
              [("success", Route.JBool true);
               ("url", Route.JStr "https://res.cloudinary.com/demo/referral.pdf");
               ("publicId", Route.JStr "lief_notes/alice@lief.care/1_referral.pdf")]))
       else refusing r.

(** A scanned note of the doctor of [Route.visit1]. *)
Definition scan2 : Route.Note :=
  {| Route.doctorId := "alice@lief.care";
     Route.title := Route.JStr "Referral";
     Route.source := Route.JStr "scan";
     Route.contentHtml := Route.JStr "";
     Route.ocrText := Route.JStr "two words";
     Route.fileUrl := Route.JStr "https://res.cloudinary.com/demo/referral.pdf";
     Route.fileName := Route.JStr "referral.pdf";
     Route.fileType := Route.JStr "application/pdf";
     Route.filePublicId := Route.JStr "lief_notes/alice@lief.care/1_referral.pdf";
     Route.createdAt := Some 1500%Z;
     Route.updatedAt := None |}.

Definition two_notes : gmap N Route.Note := <[2%N := scan2]> Route.one_note.

(** The page with a title typed into the manual form. *)
Definition home_with_draft : Home := setManualTitle "Visit 2" empty_home.

(** The page with a recognized scan and its title. *)
Definition home_with_scan : Home :=
  setScanTitle "Referral"
    (setCell (setOcrText (js "two words"))
       (setCell (setScanFile (Some referral)) empty_home)).

(** The page with the edit dialog of [Route.visit1] and a new title. *)
Definition editing_visit1 : Home :=
  setEditTitle (Some (Route.JStr "Visit 1b"))
    (setEditingNote (listed (Route.serialize Route.hex_toString (1%N, Route.visit1)))
       empty_home).

(** The page with the delete dialog of [Route.visit1], confirmed. *)
Definition deleting_visit1 : Home :=
  setDeleteConfirmation "Delete Note"
    (setDeletingNote (listed (Route.serialize Route.hex_toString (1%N, Route.visit1)))
       empty_home).

End Client.

(** * Accounts: [app/api/auth/register/route.ts] and [lib/auth.ts] *)

Module Auth.
Import Route.

(** A document of the [doctors] collection, as [POST] writes it. *)
Record Doctor := {
  name : JSON;
  position : JSON;
  email : string;
  password : string;
  createdAt : Z
}.

Abbreviation Doctors := (gmap N Doctor) (only parsing).

(** [findOne({ email })]: a document with that e-mail, when there is one. *)
Definition findOne (key : string) (doctors : Doctors) : option (N * Doctor) :=
  List.find (λ kv, String.eqb (email (snd kv)) key) (map_to_list doctors).

(** [insertOne(doc)] with the identifier the driver generated. *)
Definition insertOne (oid : N) (doc : Doctor) (doctors : Doctors) : option Doctors :=
  match doctors !! oid with
  | Some _ => None
  | None => Some (<[oid := doc]> doctors)
  end.

Inductive Payload :=
| ErrorJson (error : string)
| RegisteredJson (id message : string).

Record Response := { status : nat; payload : Payload }.

Inductive Outcome :=
| Returned (r : Response)
| Thrown.

(** What [authorize] returns for a doctor. *)
Record Account := { account_id : string; account_email : string; account_name : JSON }.

(** The credentials next-auth hands to [authorize]: fields may be missing. *)
Record Credentials := { given_email : option string; given_password : option string }.

Section Accounts.

(** [String.prototype.toLowerCase] and [String.prototype.trim]. *)
Variable toLowerCase : string → string.
Variable trim : string → string.
(** [bcrypt.compare] on two strings. *)
Variable compare : string → string → bool.
(** [oid.toString()] *)
Variable toString : N → string.

(** [POST] of the register route: [hashed] is how [bcrypt.hash(password, 10)]
    settles ([None] when it rejects), [now] the value of [new Date()],
    [fresh] the [_id] the driver generates.  [seen] is the collection when
    [findOne] reads it and [doctors] the collection when [insertOne] writes
    to it: the handler awaits [bcrypt.hash] in between, other requests may
    be served meanwhile, and the code declares no unique index.  The
    second component is the collection after the write, [doctors] itself
    when the handler writes nothing. *)
Definition POST (body : JSON) (hashed : option string)
    (now : Z) (fresh : N) (seen doctors : Doctors) : Outcome * Doctors :=
  match destructure body with
  | None => (Thrown, doctors)
  | Some field =>
      if negb (truthy (field "name")) || negb (truthy (field "position"))
         || negb (truthy (field "email")) || negb (truthy (field "password"))
      then (Returned {| status := 400; payload := ErrorJson "All fields are required." |},
            doctors)
      else
        match field "email" with
        | Some (JStr e) =>
            match findOne (toLowerCase e) seen with
            | Some _ =>
                (Returned {| status := 409;
                             payload := ErrorJson "Email already registered." |},
                 doctors)
            | None =>
                match hashed with
                | None => (Thrown, doctors)
                | Some hashedPassword =>
                    let doc :=
                      {| name := bson (field "name");
                         position := bson (field "position");
                         email := toLowerCase e;
                         password := hashedPassword;
                         createdAt := now |} in
                    match insertOne fresh doc doctors with
                    | None => (Thrown, doctors)
                    | Some doctors' =>
                        (Returned {| status := 200;
                                     payload := RegisteredJson (toString fresh)
                                                  "Doctor registered successfully." |},
                         doctors')
                    end
                end
            end
        | _ => (Thrown, doctors)
        end
  end.

(** [authorize(credentials)]: [None] is [null]. *)
Definition authorize (credentials : option Credentials) (doctors : Doctors)
    : option Account :=
  let email :=
    match credentials with
    | Some c =>
        match given_email c with
        | Some e => Some (trim (toLowerCase e))
        | None => None
        end
    | None => None
    end in
  let password :=
    match credentials with
    | Some c => default "" (given_password c)
    | None => ""
    end in
  match email with
  | None => None
  | Some e =>
      if String.eqb e "" || String.eqb password "" then None
      else
        match findOne (toLowerCase e) doctors with
        | None => None
        | Some (oid, doctor) =>
            if compare password (Auth.password doctor)
            then Some {| account_id := toString oid;
                         account_email := Auth.email doctor;
                         account_name := name doctor |}
            else None
        end
  end.

End Accounts.

(** No two doctors share an e-mail. *)
Definition unique_emails (doctors : Doctors) : Prop :=
  ∀ i j a b, doctors !! i = Some a → doctors !! j = Some b →
             email a = email b → i = j.

(** ** Sample accounts *)

(** [toLowerCase] and [trim] on ASCII text. *)
Definition lower (c : ascii) : ascii :=
  let n := N_of_ascii c in
  if ((65 <=? n) && (n <=? 90))%N then ascii_of_N (n + 32) else c.

Definition ascii_toLowerCase (s : string) : string :=
  string_of_list_ascii (lower <$> list_ascii_of_string s).

Definition ascii_trim (s : string) : string :=
  string_of_list_ascii (ascii_of_N <$> Page.trim (Page.js s)).

(** A stand-in for [bcrypt]: the hash of a password is the password after
    a fixed prefix. *)
Definition prefixed (password : string) : string := "$2b$10$" +:+ password.
Definition prefix_compare (password hash : string) : bool :=
  String.eqb hash (prefixed password).

Definition sign_up : JSON :=
  JObj [("name", JStr "Alice"); ("position", JStr "GP");
        ("email", JStr "Alice@Lief.care"); ("password", JStr "s3cret")].

(** The same registration with white space around the e-mail. *)
Definition padded_sign_up : JSON :=
  JObj [("name", JStr "Alice"); ("position", JStr "GP");
        ("email", JStr " Alice@Lief.care "); ("password", JStr "s3cret")].

(** The collection after the registration [sign_up] in an empty one. *)
Definition registered_once : gmap N Doctor :=
  <[1%N := {| name := JStr "Alice"; position := JStr "GP";
              email := "alice@lief.care"; password := prefixed "s3cret";
              createdAt := 1000 |}]> ∅.

End Auth.


(** * Properties of the notes route *)

Section RouteProperties.
Import Route.

Variable new_ObjectId : JsValue → option N.
Variable toString : N → string.

(** ** Values *)

Lemma strict_eq_str_true v lit : strict_eq_str v lit = true ↔ v = JStr lit.
Proof.
  destruct v; simpl; try (split; [discriminate | congruence]).
  rewrite String.eqb_eq. split; congruence.
Qed.

Lemma strict_eq_str_false v lit : strict_eq_str v lit = false ↔ v ≠ JStr lit.
Proof.
  rewrite <- strict_eq_str_true. destruct (strict_eq_str v lit); split; congruence.
Qed.

(** A body with a truthy property is not [null]: destructuring it succeeds. *)
Lemma truthy_destructure body key :
  truthy (prop body key) = true → destructure body = Some (prop body).
Proof. destruct body; simpl; try discriminate; reflexivity. Qed.

(** A truthy value is written as it is. *)
Lemma truthy_bson v : truthy v = true → Some (bson v) = v.
Proof. destruct v; simpl; try discriminate; reflexivity. Qed.

(** ** The collection *)

Lemma findOne_Some oid who (notes : gmap N Note) n :
  findOne oid who notes = Some n ↔ notes !! oid = Some n ∧ doctorId n = who.
Proof.
  unfold findOne. destruct (notes !! oid) as [m|] eqn:Hm.
  - destruct (String.eqb (doctorId m) who) eqn:He.
    + apply String.eqb_eq in He. split; [intros [= <-]; done | intros [[= <-] _]; done].
    + apply String.eqb_neq in He. split; [done | intros [[= <-] ?]; done].
  - split; [done | intros [? _]; done].
Qed.


Lemma updateOne_found oid set (notes : gmap N Note) n :
  notes !! oid = Some n → updateOne oid set notes = <[oid := set n]> notes.
Proof.
  intros Hn. unfold updateOne. apply map_eq. intros j.
  rewrite lookup_alter, lookup_insert.
  destruct (decide (oid = j)) as [->|]; [by rewrite Hn | done].
Qed.

Lemma date_leb_total a b : date_leb a b = true ∨ date_leb b a = true.
Proof. destruct a, b; simpl; auto. rewrite !Z.leb_le. lia. Qed.

Lemma date_leb_trans a b c :
  date_leb a b = true → date_leb b c = true → date_leb a c = true.
Proof. destruct a, b, c; simpl; auto; try discriminate. rewrite !Z.leb_le. lia. Qed.

#[local] Instance newer_first_total : Total newer_first.
Proof.
  intros x y. unfold newer_first.
  destruct (date_leb_total (createdAt (snd y)) (createdAt (snd x))) as [-> | ->];
    simpl; auto.
Qed.

#[local] Instance newer_first_trans : Transitive newer_first.
Proof.
  intros x y z. unfold newer_first. intros H1 H2.
  apply Is_true_true in H1, H2. apply Is_true_true. eauto using date_leb_trans.
Qed.

Lemma elem_of_find_by_doctor who (notes : gmap N Note) oid n :
  (oid, n) ∈ find_by_doctor who notes ↔ notes !! oid = Some n ∧ doctorId n = who.
Proof.
  unfold find_by_doctor. rewrite merge_sort_Permutation.
  rewrite list_elem_of_In, filter_In, <- list_elem_of_In, elem_of_map_to_list.
  simpl. by rewrite String.eqb_eq.
Qed.



(** ** The handlers, request by request *)

(** What [PATCH] does once the request passed every check. *)
Lemma PATCH_owned session body now (notes : gmap N Note) who oid n :
  caller session = Some who →
  truthy (prop body "id") = true →
  truthy (prop body "title") = true →
  new_ObjectId (prop body "id") = Some oid →
  notes !! oid = Some n →
  doctorId n = who →
  PATCH new_ObjectId session body now notes =
    (json SuccessJson,
     <[oid := updateData n (prop body "title") (prop body "contentHtml")
                (prop body "ocrText") now n]> notes).
Proof.
  intros Hc Hid Ht Hoid Hn Hw. unfold PATCH.
  rewrite Hc, (truthy_destructure _ _ Hid), Hid, Ht, Hoid. simpl.
  assert (findOne oid who notes = Some n) as -> by (by apply findOne_Some).
  by rewrite (updateOne_found _ _ _ _ Hn).
Qed.

Lemma DELETE_owned session body (notes : gmap N Note) who oid n :
  caller session = Some who →
  truthy (prop body "id") = true →
  new_ObjectId (prop body "id") = Some oid →
  notes !! oid = Some n →
  doctorId n = who →
  DELETE new_ObjectId session body notes = (json SuccessJson, delete oid notes).
Proof.
  intros Hc Hid Hoid Hn Hw. unfold DELETE.
  rewrite Hc, (truthy_destructure _ _ Hid), Hid, Hoid. simpl.
  assert (findOne oid who notes = Some n) as -> by (by apply findOne_Some).
  reflexivity.
Qed.




(** ** The invariant of the data model under updates and deletions *)




(** ** The claims about the note store *)





(** What is no identifier is rejected by the sample constructor. *)
Lemma parse_hex_not_hex s acc : all_hex s = false → parse_hex s acc = None.
Proof.
  revert acc. induction s as [|c s IH]; intros acc; simpl; [done|].
  destruct (hex_digit c); [apply IH | done].
Qed.

Lemma hex_ObjectId_rejects s :
  malformed s = true → hex_ObjectId (Some (JStr s)) = None.
Proof.
  unfold malformed, hex_ObjectId, of_hex. intros [H _]%andb_true_iff.
  destruct (Nat.eqb (String.length s) 24); [|done]. simpl in H.
  apply parse_hex_not_hex. by apply negb_true_iff.
Qed.

(** C9, as the code has it.  Given a constructor that throws on every
    string that is neither 24 hexadecimal characters nor 12 characters
    long: for an authenticated caller whose [id] is such a string, and not
    empty, [DELETE] does not return a response, neither 404 nor 400: the
    exception leaves the handler; [PATCH] does the same when the request
    carries a title, and answers 400 when it does not, since it checks the
    title before it reaches the constructor.  The collection is as it
    was. *)
Theorem malformed_id_throws session body now (notes : gmap N Note) who s :
  (∀ s', malformed s' = true → new_ObjectId (Some (JStr s')) = None) →
  caller session = Some who →
  prop body "id" = Some (JStr s) →
  s ≠ "" →
  malformed s = true →
  DELETE new_ObjectId session body notes = (Thrown, notes)
  ∧ PATCH new_ObjectId session body now notes
    = (if truthy (prop body "title") then Thrown else missing_fields, notes).
Proof.
  intros Hthrows Hc Hs Hne Hbad.
  assert (truthy (prop body "id") = true) as Hid.
  { rewrite Hs. simpl. by apply negb_true_iff, String.eqb_neq. }
  assert (new_ObjectId (prop body "id") = None) as Hoid
    by (rewrite Hs; by apply Hthrows).
  split.
  - unfold DELETE. by rewrite Hc, (truthy_destructure _ _ Hid), Hid, Hoid.
  - unfold PATCH. rewrite Hc, (truthy_destructure _ _ Hid), Hid.
    destruct (truthy (prop body "title")); simpl; [by rewrite Hoid | done].
Qed.


End RouteProperties.

(** ** The claims at sample requests *)

Section RouteExamples.
Import Route.







(** C9 as it is stated fails.  A [PATCH] whose [id] is no identifier and
    which carries no title is answered 400: the title is checked before the
    constructor is reached.  And an [id] that is no string at all need not
    make the constructor throw: given as an object with an [id] member of
    24 hexadecimal characters, it denotes the note, which is deleted. *)
Lemma malformed_id_without_title_is_a_bad_request :
  malformed "not-an-object-id" = true
  ∧ PATCH hex_ObjectId (doctor "alice@lief.care") bad_id_only 2000 one_note
    = (missing_fields, one_note)
  ∧ DELETE hex_ObjectId (doctor "alice@lief.care") id1_as_object one_note
    = (json SuccessJson, delete 1%N one_note).
Proof. split; [reflexivity|]. split; [reflexivity | vm_compute; reflexivity]. Qed.

Example malformed_id_throws_at_bad_id :
  DELETE hex_ObjectId (doctor "alice@lief.care") bad_id one_note = (Thrown, one_note)
  ∧ PATCH hex_ObjectId (doctor "alice@lief.care") bad_id 2000 one_note
      = (Thrown, one_note).
Proof.
  assert ("not-an-object-id" ≠ "") as Hne by discriminate.
  exact (malformed_id_throws hex_ObjectId (doctor "alice@lief.care")
           bad_id 2000 one_note "alice@lief.care" "not-an-object-id"
           hex_ObjectId_rejects eq_refl eq_refl Hne eq_refl).
Defined.


End RouteExamples.

(** * Properties of the scan form *)

Section PageProperties.
Import Page.

(** ** [trim] *)

Lemma trimStart_split s :
  ∃ before, s = before ++ trimStart s ∧ Forall (λ c, isWhiteSpace c = true) before.
Proof.
  induction s as [|c s [before [Hs Hb]]]; [by exists []|].
  simpl. destruct (isWhiteSpace c) eqn:Hc.
  - exists (c :: before). split; [by rewrite Hs at 1 | by constructor].
  - by exists [].
Qed.

Lemma trimStart_head s c : head (trimStart s) = Some c → isWhiteSpace c = false.
Proof.
  induction s as [|d s IH]; [done|]. simpl.
  destruct (isWhiteSpace d) eqn:Hd; [done|]. simpl. congruence.
Qed.

Lemma trim_split s :
  ∃ before behind,
    s = before ++ trim s ++ behind
    ∧ Forall (λ c, isWhiteSpace c = true) before
    ∧ Forall (λ c, isWhiteSpace c = true) behind.
Proof.
  destruct (trimStart_split s) as [before [Hs Hb]].
  destruct (trimStart_split (reverse (trimStart s))) as [behind [Hr He]].
  exists before, (reverse behind). split; [|split; [done|]].
  - unfold trim, trimEnd. rewrite <- reverse_app, <- Hr, reverse_involutive. done.
  - by apply Forall_reverse.
Qed.

Lemma trim_ends s :
  (∀ c, head (trim s) = Some c → isWhiteSpace c = false)
  ∧ (∀ c, last (trim s) = Some c → isWhiteSpace c = false).
Proof.
  unfold trim, trimEnd. split; intros c.
  - destruct (trimStart_split (reverse (trimStart s))) as [behind [Hr _]].
    apply (f_equal reverse) in Hr. rewrite reverse_involutive, reverse_app in Hr.
    destruct (reverse (trimStart (reverse (trimStart s)))) as [|d l] eqn:Hd; [done|].
    simpl. intros [= ->]. apply (trimStart_head s). by rewrite Hr.
  - rewrite last_reverse. apply trimStart_head.
Qed.


(** ** One job on its own *)

Ltac ocr_stage env image :=
  destruct (importTesseract env) as [[]|] eqn:Himport; cbn -[fallback trim heard after] in *;
  [ destruct (snd (createWorker env)) as [[]|] eqn:Hcreate; cbn -[fallback trim heard after] in *;
    [ destruct (snd (recognize env image)) as [text|] eqn:Hrecognize;
      cbn -[fallback trim heard after] in *;
      [ destruct (snd (terminate env)) as [[]|] eqn:Hterminate;
        cbn -[fallback trim heard after] in * | ] | ] | ].

Ltac job_cases env file :=
  unfold transcript, recognized, ocr_input, handleScanFile, fileToBase64,
    renderPdfToImage, runOcrOnImage in *;
  cbn -[fallback trim heard after] in *;
  destruct (readAsDataURL env file) as [preview|] eqn:Hread;
  cbn -[fallback trim heard after] in *;
  [ destruct (String.eqb (type file) "application/pdf") eqn:Hpdf;
    cbn -[fallback trim heard after] in *;
    [ destruct (renderFirstPage env file) as [url|] eqn:Hrender;
      cbn -[fallback trim heard after] in *;
      [ ocr_stage env (DataUrl url) | ]
    | ocr_stage env (Blob file) ]
  | ].

Lemma after_logger_cells msgs st :
  scanFile (after logger msgs st) = scanFile st
  ∧ scanPreview (after logger msgs st) = scanPreview st
  ∧ ocrText (after logger msgs st) = ocrText st
  ∧ ocrBusy (after logger msgs st) = ocrBusy st.
Proof.
  revert st. induction msgs as [|m msgs IH]; intros st; [done|].
  unfold after in *. simpl. destruct (IH (logger m st)) as (-> & -> & -> & ->).
  unfold logger. by destruct (_ && _).
Qed.

Lemma run_result env file st :
  result (run env (handleScanFile file) st) = Some tt.
Proof. job_cases env file; reflexivity. Qed.

Lemma run_final_cells env file st :
  let r := run env (handleScanFile file) st in
  ocrText (final r) = transcript env file
  ∧ ocrBusy (final r) = false
  ∧ scanFile (final r) = Some file.
Proof.
  job_cases env file;
    repeat match goal with
           | |- context [after logger ?msgs ?s] =>
               let H := fresh in
               destruct (after_logger_cells msgs s) as (H & _ & _ & _);
               rewrite ?H; clear H; generalize (after logger msgs s); intros ?
           end; try done.
Qed.


(** ** Rounding to the nearest double *)

Section Doubles.
Local Open Scope Q_scope.

Lemma pow2_pos e : 0 < pow2 e.
Proof. apply Qpower_0_lt. reflexivity. Qed.

Lemma pow2_plus a b : pow2 (a + b) == pow2 a * pow2 b.
Proof. apply Qpower_plus. discriminate. Qed.

Lemma pow2_le a b : (a <= b)%Z -> pow2 a <= pow2 b.
Proof. intros H. apply Qpower_le_compat_l; [exact H | discriminate]. Qed.

Lemma pow2_Z n : (0 <= n)%Z -> pow2 n == inject_Z (2 ^ n).
Proof. intros H. unfold pow2. rewrite Zpower_Qpower by exact H. reflexivity. Qed.

Lemma exponent_spec x :
  0 < x -> pow2 (exponent x) <= x /\ x < pow2 (exponent x + 1).
Proof.
  intros Hx. destruct x as [n d]. unfold Qlt in Hx. simpl in Hx.
  assert (0 < n)%Z as Hn by lia. clear Hx.
  unfold exponent. simpl Qnum. simpl Qden.
  set (a := Z.log2 n). set (b := Z.log2 (Z.pos d)).
  destruct (Z.log2_spec n Hn) as [Ha1 Ha2]. fold a in Ha1, Ha2.
  destruct (Z.log2_spec (Z.pos d) eq_refl) as [Hb1 Hb2]. fold b in Hb1, Hb2.
  assert (0 <= a)%Z as Ha0 by apply Z.log2_nonneg.
  assert (0 <= b)%Z as Hb0 by apply Z.log2_nonneg.
  assert ((n # d) * inject_Z (Z.pos d) == inject_Z n) as Hnd.
  { unfold Qeq, Qmult, inject_Z. simpl. lia. }
  assert (0 < n # d) as Hpos by (unfold Qlt; simpl; lia).
  assert ((n # d) < pow2 (a - b + 1)) as Hup.
  { apply Qmult_lt_r with (z := pow2 b); [apply pow2_pos|].
    rewrite <- pow2_plus. replace (a - b + 1 + b)%Z with (a + 1)%Z by lia.
    rewrite !pow2_Z by lia.
    apply Qle_lt_trans with (y := inject_Z n).
    - rewrite <- Hnd. apply Qmult_le_l; [exact Hpos|].
      rewrite <- Zle_Qle. exact Hb1.
    - rewrite <- Zlt_Qlt. replace (a + 1)%Z with (Z.succ a) by lia. exact Ha2. }
  assert (pow2 (a - b - 1) < (n # d)) as Hlow.
  { apply Qmult_lt_r with (z := pow2 (b + 1)); [apply pow2_pos|].
    rewrite <- pow2_plus. replace (a - b - 1 + (b + 1))%Z with a by lia.
    rewrite !pow2_Z by lia.
    apply Qle_lt_trans with (y := inject_Z n).
    - rewrite <- Zle_Qle. exact Ha1.
    - rewrite <- Hnd. apply Qmult_lt_l; [exact Hpos|].
      rewrite <- Zlt_Qlt. replace (b + 1)%Z with (Z.succ b) by lia. exact Hb2. }
  destruct (Qle_bool (pow2 (a - b)) (n # d)) eqn:Hle.
  - apply Qle_bool_iff in Hle. split; [exact Hle | exact Hup].
  - split; [apply Qlt_le_weak; exact Hlow|].
    replace (a - b - 1 + 1)%Z with (a - b)%Z by lia.
    apply Qnot_le_lt. intros H. apply Qle_bool_iff in H. congruence.
Qed.

Lemma exponent_mono x y : 0 < x -> x <= y -> (exponent x <= exponent y)%Z.
Proof.
  intros Hx Hxy.
  assert (0 < y) as Hy by (eapply Qlt_le_trans; eauto).
  destruct (exponent_spec x Hx) as [Hx1 _].
  destruct (exponent_spec y Hy) as [_ Hy2].
  assert (pow2 (exponent x) < pow2 (exponent y + 1)) as H.
  { eapply Qle_lt_trans; [exact Hx1|]. eapply Qle_lt_trans; [exact Hxy | exact Hy2]. }
  apply Qpower_lt_compat_l_inv in H; [lia | reflexivity].
Qed.

Lemma nearest_even_bounds m :
  (Qfloor m <= nearest_even m <= Qfloor m + 1)%Z.
Proof.
  unfold nearest_even. destruct (Qcompare _ _); [destruct (Z.even _)| |]; lia.
Qed.

Lemma nearest_even_mono m1 m2 : m1 <= m2 -> (nearest_even m1 <= nearest_even m2)%Z.
Proof.
  intros H. pose proof (Qfloor_resp_le _ _ H) as Hf.
  destruct (Z.eq_dec (Qfloor m1) (Qfloor m2)) as [He|Hne].
  - unfold nearest_even. rewrite He.
    assert (m1 - inject_Z (Qfloor m2) <= m2 - inject_Z (Qfloor m2)) as Hfrac by lra.
    destruct (Qcompare_spec (m1 - inject_Z (Qfloor m2)) (1 # 2)) as [E1|L1|G1];
      destruct (Qcompare_spec (m2 - inject_Z (Qfloor m2)) (1 # 2)) as [E2|L2|G2];
      try destruct (Z.even (Qfloor m2)); try lia; exfalso; lra.
  - pose proof (nearest_even_bounds m1). pose proof (nearest_even_bounds m2). lia.
Qed.

Lemma nearest_even_Z z : nearest_even (inject_Z z) = z.
Proof.
  unfold nearest_even. rewrite Qfloor_Z.
  destruct (Qcompare_spec (inject_Z z - inject_Z z) (1 # 2)) as [E|L|G];
    [exfalso; lra | reflexivity | exfalso; lra].
Qed.

Lemma nearest_bounds x :
  0 < x -> pow2 (exponent x) <= nearest x /\ nearest x <= pow2 (exponent x + 1).
Proof.
  intros Hx. destruct (exponent_spec x Hx) as [H1 H2].
  unfold nearest. set (e := exponent x) in *.
  assert (pow2 52 <= x * pow2 (52 - e)) as Hm1.
  { replace 52%Z with (e + (52 - e))%Z at 1 by lia. rewrite pow2_plus.
    apply Qmult_le_r; [apply pow2_pos | exact H1]. }
  assert (x * pow2 (52 - e) <= pow2 53) as Hm2.
  { replace 53%Z with (e + 1 + (52 - e))%Z by lia. rewrite pow2_plus.
    apply Qmult_le_r; [apply pow2_pos|]. apply Qlt_le_weak. exact H2. }
  rewrite (pow2_Z 52) in Hm1 by lia. rewrite (pow2_Z 53) in Hm2 by lia.
  apply nearest_even_mono in Hm1, Hm2. rewrite nearest_even_Z in Hm1, Hm2.
  rewrite Zle_Qle in Hm1, Hm2.
  rewrite <- (pow2_Z 52) in Hm1 by lia. rewrite <- (pow2_Z 53) in Hm2 by lia.
  split.
  - replace e with (52 + (e - 52))%Z at 1 by lia. rewrite pow2_plus.
    apply Qmult_le_r; [apply pow2_pos | exact Hm1].
  - replace (e + 1)%Z with (53 + (e - 52))%Z by lia. rewrite pow2_plus.
    apply Qmult_le_r; [apply pow2_pos | exact Hm2].
Qed.

Lemma nearest_mono x y : 0 < x -> x <= y -> nearest x <= nearest y.
Proof.
  intros Hx Hxy.
  assert (0 < y) as Hy by (eapply Qlt_le_trans; eauto).
  pose proof (exponent_mono x y Hx Hxy) as He.
  destruct (Z.eq_dec (exponent x) (exponent y)) as [Heq|Hne].
  - unfold nearest. rewrite Heq.
    apply Qmult_le_r; [apply pow2_pos|]. rewrite <- Zle_Qle.
    apply nearest_even_mono. apply Qmult_le_r; [apply pow2_pos | exact Hxy].
  - destruct (nearest_bounds x Hx) as [_ Hxb].
    destruct (nearest_bounds y Hy) as [Hyb _].
    eapply Qle_trans; [exact Hxb|]. eapply Qle_trans; [|exact Hyb].
    apply pow2_le. lia.
Qed.

Lemma binary64_mono x y : 0 <= x -> x <= y -> binary64 x <= binary64 y.
Proof.
  intros Hx Hxy. unfold binary64.
  destruct x as [[|n|n] d]; destruct y as [[|m|m] e];
    unfold Qle in Hx, Hxy; simpl in Hx, Hxy; try lia; simpl Qnum.
  - apply Qle_refl.
  - apply Qlt_le_weak. eapply Qlt_le_trans; [apply (pow2_pos (exponent (Z.pos m # e)))|].
    apply nearest_bounds. reflexivity.
  - apply nearest_mono; [reflexivity | exact Hxy].
Qed.

End Doubles.

(** ** Progress *)

Lemma Math_round_mono x y : (x <= y)%Q → (Math_round x ≤ Math_round y)%Z.
Proof.
  intros H. unfold Math_round. apply Qfloor_resp_le.
  by apply Qplus_le_l.
Qed.

Lemma times_mono p q : (0 <= p)%Q → (p <= q)%Q → (times p 100 <= times q 100)%Q.
Proof.
  intros H0 H. unfold times. apply binary64_mono.
  - apply Qmult_le_0_compat; [done | discriminate].
  - apply Qmult_le_compat_r; [done | discriminate].
Qed.

Lemma Math_round_percent p :
  (0 <= p)%Q → (p <= 1)%Q → (0 ≤ Math_round (times p 100) ≤ 100)%Z.
Proof.
  intros H0 H1. split.
  - change 0%Z with (Math_round (times 0 100)). apply Math_round_mono.
    apply times_mono; [apply Qle_refl | done].
  - change 100%Z with (Math_round (times 1 100)). apply Math_round_mono.
    by apply times_mono.
Qed.

Lemma rising_nil lo hi : (lo ≤ hi)%Z → rising lo [] hi.
Proof. intros H. split; [done|]. split; constructor. Qed.

Lemma rising_cons lo x l hi :
  (lo ≤ x)%Z → rising x l hi → rising lo (x :: l) hi.
Proof.
  intros Hlo (Hhi & Hs & Hb). split; [lia|]. split.
  - constructor; [done|]. eapply Forall_impl; [exact Hb|]. simpl. lia.
  - constructor; [lia|]. eapply Forall_impl; [exact Hb|]. simpl. lia.
Qed.

Lemma rising_app lo l1 mid l2 hi :
  rising lo l1 mid → rising mid l2 hi → rising lo (l1 ++ l2) hi.
Proof.
  intros (Hm1 & Hs1 & Hb1) (Hm2 & Hs2 & Hb2). split; [lia|]. split.
  - apply StronglySorted_app. split; [|done].
    intros x1 x2 H1 H2.
    rewrite Forall_forall in Hb1, Hb2.
    specialize (Hb1 _ H1). specialize (Hb2 _ H2). lia.
  - apply Forall_app. split.
    + eapply Forall_impl; [exact Hb1|]. simpl. lia.
    + eapply Forall_impl; [exact Hb2|]. simpl. lia.
Qed.

Lemma logger_quiet m st : recognizing m = false → logger m st = st.
Proof. unfold logger, recognizing. by intros ->. Qed.

Lemma logger_progress m st :
  ocrProgress (logger m st) = ocrProgress st
  ∨ (recognizing m = true
     ∧ ocrProgress (logger m st) = Math_round (times (progress m) 100)).
Proof.
  unfold logger, recognizing.
  destruct (String.eqb (status m) "recognizing text"); simpl; [|by left].
  destruct (negb _); simpl; [by right | by left].
Qed.

Lemma steady_cons m msgs : steady (m :: msgs) → steady msgs.
Proof.
  unfold steady. simpl. destruct (recognizing m); [|done].
  intros [Hb Hs]. inversion Hb; inversion Hs; subst. done.
Qed.

Lemma steady_app_r l1 l2 : steady (l1 ++ l2) → steady l2.
Proof. induction l1; [done|]. intros H. apply IHl1. by eapply steady_cons. Qed.

Lemma below_cons p m msgs : below p (m :: msgs) → below p msgs.
Proof.
  unfold below. simpl. destruct (recognizing m); [|done].
  intros H. by inversion H.
Qed.

Lemma below_step m msgs st :
  steady (m :: msgs) → below (ocrProgress st) (m :: msgs) →
  (ocrProgress st ≤ ocrProgress (logger m st))%Z
  ∧ below (ocrProgress (logger m st)) msgs.
Proof.
  intros Hst Hbel.
  destruct (logger_progress m st) as [-> | [Hrec ->]].
  - split; [lia | by eapply below_cons].
  - unfold steady, below in *. simpl in *. rewrite Hrec in *.
    destruct Hst as [Hb Hs]. inversion Hs as [|? ? _ Hall]; subst.
    inversion Hb as [|? ? [H0 _] _]; subst.
    inversion Hbel; subst. split; [done|].
    eapply Forall_impl; [exact Hall|]. simpl. intros m' Hle.
    apply Math_round_mono. by apply times_mono.
Qed.

Lemma heard_rising msgs more st :
  steady (msgs ++ more) → below (ocrProgress st) (msgs ++ more) →
  rising (ocrProgress st) (ocrProgress <$> heard logger msgs st)
    (ocrProgress (after logger msgs st))
  ∧ (ocrProgress st ≤ ocrProgress (after logger msgs st))%Z
  ∧ below (ocrProgress (after logger msgs st)) more.
Proof.
  revert st. induction msgs as [|m msgs IH]; intros st Hst Hbel.
  - split; [by apply rising_nil|]. split; [done | done].
  - simpl in Hst, Hbel. destruct (below_step _ _ _ Hst Hbel) as [Hle Hbel'].
    destruct (IH (logger m st) (steady_cons _ _ Hst) Hbel') as (Hr & Hle' & Hb).
    split; [|split].
    + simpl. apply rising_cons; [done | exact Hr].
    + unfold after in *. simpl. lia.
    + exact Hb.
Qed.

Lemma steady_below_0 msgs : steady msgs → below 0 msgs.
Proof.
  intros [Hb _]. unfold below. eapply Forall_impl; [exact Hb|].
  simpl. intros m [H0 H1]. by apply Math_round_percent.
Qed.

Lemma steady_at_most_100 msgs st :
  steady msgs → (0 ≤ ocrProgress st ≤ 100)%Z →
  (0 ≤ ocrProgress (after logger msgs st) ≤ 100)%Z.
Proof.
  revert st. induction msgs as [|m msgs IH]; intros st Hst Hr; [done|].
  unfold after in *. simpl. apply IH; [by eapply steady_cons|].
  destruct (logger_progress m st) as [-> | [Hrec ->]]; [done|].
  destruct Hst as [Hb _]. simpl in Hb. rewrite Hrec in Hb.
  inversion Hb as [|? ? [H0 H1] _]; subst. by apply Math_round_percent.
Qed.


Lemma steady_app_l l1 l2 : steady (l1 ++ l2) → steady l1.
Proof.
  unfold steady. rewrite List.filter_app, Forall_app, StronglySorted_app.
  tauto.
Qed.

(** The percentages shown while the worker is created, recognizes and is
    terminated, whichever of the three the job gets to. *)
Lemma rising_stages st M1 M2 M3 :
  ocrProgress st = 0%Z →
  steady (M1 ++ M2 ++ M3) →
  let s1 := after logger M1 st in
  let s2 := after logger M2 s1 in
  let s3 := after logger M3 s2 in
  rising 0 ((ocrProgress <$> heard logger M1 st) ++ [ocrProgress s1]) 100
  ∧ rising 0 ((ocrProgress <$> heard logger M1 st) ++ ocrProgress s1
              :: (ocrProgress <$> heard logger M2 s1) ++ [ocrProgress s2]) 100
  ∧ rising 0 ((ocrProgress <$> heard logger M1 st) ++ ocrProgress s1
              :: (ocrProgress <$> heard logger M2 s1) ++ ocrProgress s2
              :: (ocrProgress <$> heard logger M3 s2) ++ [ocrProgress s3]) 100.
Proof.
  intros H0 Hst s1 s2 s3.
  pose proof (steady_below_0 _ Hst) as Hb0. rewrite <- H0 in Hb0.
  destruct (heard_rising M1 (M2 ++ M3) st Hst Hb0) as (Hr1 & Hle1 & Hb1).
  pose proof (steady_app_r _ _ Hst) as Hst2. fold s1 in Hr1, Hle1, Hb1.
  destruct (heard_rising M2 M3 s1 Hst2 Hb1) as (Hr2 & Hle2 & Hb2).
  pose proof (steady_app_r _ _ Hst2) as Hst3. fold s2 in Hr2, Hle2, Hb2.
  assert (steady (M3 ++ [])) as Hst3' by (by rewrite app_nil_r).
  assert (below (ocrProgress s2) (M3 ++ [])) as Hb2' by (by rewrite app_nil_r).
  destruct (heard_rising M3 [] s2 Hst3' Hb2') as (Hr3 & Hle3 & _). fold s3 in Hr3, Hle3.
  assert (0 ≤ ocrProgress s1 ≤ 100)%Z as B1.
  { apply steady_at_most_100; [by eapply steady_app_l | lia]. }
  assert (0 ≤ ocrProgress s2 ≤ 100)%Z as B2.
  { apply steady_at_most_100; [by eapply steady_app_l | done]. }
  assert (0 ≤ ocrProgress s3 ≤ 100)%Z as B3.
  { apply steady_at_most_100; [done | done]. }
  rewrite H0 in *.
  assert (∀ p, (0 ≤ p ≤ 100)%Z → rising p [p] 100) as single.
  { intros p Hp. apply rising_cons; [lia|]. apply rising_nil. lia. }
  split; [|split].
  - eapply rising_app; [exact Hr1 | by apply single].
  - eapply rising_app; [exact Hr1|]. apply rising_cons; [lia|].
    eapply rising_app; [exact Hr2 | by apply single].
  - eapply rising_app; [exact Hr1|]. apply rising_cons; [lia|].
    eapply rising_app; [exact Hr2|]. apply rising_cons; [lia|].
    eapply rising_app; [exact Hr3 | by apply single].
Qed.

Lemma shown_rising env file st :
  well_behaved env →
  rising 0 (ocrProgress <$> shown (run env (handleScanFile file) st)) 100.
Proof.
  intros Hwb.
  job_cases env file;
    repeat (rewrite fmap_app || rewrite fmap_cons);
    cbn -[fallback trim heard after];
    repeat (apply rising_cons; [lia|]);
    try (apply rising_nil; lia);
    match goal with
    | |- context [recognize env ?image] =>
        destruct (rising_stages
                    (setScanPreview (Some preview)
                       (setOcrBusy true
                          (setOcrProgress 0
                             (setOcrText []
                                (setScanPreview None (setScanFile (Some file) st))))))
                    (fst (createWorker env)) (fst (recognize env image))
                    (fst (terminate env)) eq_refl (Hwb image)) as (R1 & R2 & R3)
    | |- _ =>
        destruct (rising_stages
                    (setScanPreview (Some preview)
                       (setOcrBusy true
                          (setOcrProgress 0
                             (setOcrText []
                                (setScanPreview None (setScanFile (Some file) st))))))
                    (fst (createWorker env)) (fst (recognize env (Blob file)))
                    (fst (terminate env)) eq_refl (Hwb (Blob file))) as (R1 & R2 & R3)
    end;
    first [exact R1 | exact R2 | exact R3].
Qed.


(** ** Several jobs on one form *)

Lemma settle_strip {A} (t : Async A) st : snd (settle t st) = strip t.
Proof. revert st. induction t; intros st; simpl; auto. Qed.

Lemma resume_next {A} env (t : Async A) st : snd (resume env t st) = next env t.
Proof. unfold resume, next. apply settle_strip. Qed.

Lemma next_finished {A} env (t : Async A) :
  in_flight t = false → next env t = t.
Proof. by destruct t. Qed.

Lemma resume_finished {A} env (t : Async A) st :
  in_flight t = false → fst (resume env t st) = st.
Proof. by destruct t. Qed.

Ltac drive env :=
  repeat (cbn -[fallback trim heard after] in *;
          match goal with
          | |- context [readAsDataURL env ?f] =>
              destruct (readAsDataURL env f) eqn:?
          | |- context [String.eqb (type ?f) "application/pdf"] =>
              destruct (String.eqb (type f) "application/pdf") eqn:?
          | |- context [renderFirstPage env ?f] =>
              destruct (renderFirstPage env f) eqn:?
          | |- context [importTesseract env] =>
              destruct (importTesseract env) as [[]|] eqn:?
          | |- context [snd (createWorker env)] =>
              destruct (snd (createWorker env)) as [[]|] eqn:?
          | |- context [snd (recognize env ?i)] =>
              destruct (snd (recognize env i)) eqn:?
          | |- context [snd (terminate env)] =>
              destruct (snd (terminate env)) as [[]|] eqn:?
          end);
  cbn -[fallback trim heard after] in *.

Lemma advance_over env file k :
  (6 ≤ k)%nat → in_flight (advance env k (strip (handleScanFile file))) = false.
Proof.
  intros Hk. replace k with ((k - 6) + 6)%nat by lia.
  generalize (k - 6)%nat. clear k Hk. intros n. induction n as [|n IH].
  - unfold handleScanFile, fileToBase64, renderPdfToImage, runOcrOnImage, next.
    drive env; reflexivity.
  - simpl. by rewrite next_finished.
Qed.

(** What settling an await of a job does to the form, at any point of
    the job and for any state of the form. *)
Lemma settle_job env file k st :
  let t := advance env k (strip (handleScanFile file)) in
  scanFile (fst (resume env t st)) = scanFile st
  ∧ (in_flight t = true → in_flight (next env t) = false →
     ocrText (fst (resume env t st)) = transcript env file
     ∧ ocrBusy (fst (resume env t st)) = false).
Proof.
  destruct (le_lt_dec 6 k) as [Hk|Hk].
  { pose proof (advance_over env file k Hk) as Hf. cbv zeta.
    split; [by rewrite resume_finished | congruence]. }
  cbv zeta.
  unfold transcript, recognized, ocr_input, resume, handleScanFile, fileToBase64,
    renderPdfToImage, runOcrOnImage, next.
  destruct k as [|[|[|[|[|[|k]]]]]]; [..| lia];
    drive env;
    repeat match goal with
           | |- context [after logger ?msgs ?s] =>
               let H1 := fresh in let H3 := fresh in let H4 := fresh in
               destruct (after_logger_cells msgs s) as (H1 & _ & H3 & H4);
               rewrite ?H1, ?H3, ?H4; clear H1 H3 H4;
               generalize (after logger msgs s); intros ?
           end;
    try done; try (split; [done|]; intros; discriminate).
Qed.


Lemma acts_snoc s l a : acts s (l ++ [a]) = act (acts s l) a.
Proof. unfold acts. by rewrite foldl_app. Qed.

Lemma selections_snoc l a :
  selections (l ++ [a]) =
  selections l ++ match a with
                  | Select file env => [(file, env)]
                  | Settle _ => []
                  end.
Proof. unfold selections. rewrite omap_app. by destruct a. Qed.

(** The jobs of a form reached from the idle one are the jobs of the files
    selected, in order, and the file on show is the last one selected. *)
Lemma reachable_form actions :
  let s := acts idle actions in
  Forall2 job_of (selections actions) (jobs s)
  ∧ scanFile (ui s) = fst <$> last (selections actions).
Proof.
  induction actions as [|a actions [IHjobs IHfile]] using rev_ind; [by split|].
  cbv zeta. rewrite acts_snoc, selections_snoc.
  destruct a as [file env|j]; cbn [act].
  - cbn [ui jobs]. split.
    + apply Forall2_app; [done|]. constructor; [|constructor].
      split; [done|]. by exists 0%nat.
    + by rewrite last_snoc.
  - rewrite app_nil_r.
    destruct (jobs (acts idle actions) !! j) as [job|] eqn:Hj; [|by split].
    destruct (Forall2_lookup_r _ _ _ _ _ IHjobs Hj)
      as ([file env] & Hsel & Henv & k & Hk).
    cbn [fst snd] in Henv, Hk. cbn [ui jobs]. split.
    + rewrite <- (list_insert_id _ _ _ Hsel) at 1.
      apply Forall2_insert; [done|]. split; [done|]. cbn [fst snd pending outside].
      exists (S k). by rewrite resume_next, Hk, Henv.
    + rewrite Hk, Henv.
      by destruct (settle_job env file k (ui (acts idle actions))) as [-> _].
Qed.

Lemma active_snoc s job :
  in_flight (pending job) = true →
  length (List.filter (λ j, in_flight (pending j)) (jobs s ++ [job]))
  = S (active s).
Proof.
  intros H. unfold active. rewrite List.filter_app, length_app. simpl.
  rewrite H. simpl. lia.
Qed.

(** ** The two ways of running a job agree *)

Lemma run_settle {A} env (t : Async A) st :
  final (run env t st) = final (run env (snd (settle t st)) (fst (settle t st))).
Proof. revert st. induction t; intros st; simpl; auto. Qed.

Lemma run_resume {A} env (t : Async A) st :
  final (run env t st) = final (run env (snd (resume env t st)) (fst (resume env t st))).
Proof. destruct t; unfold resume; simpl; first [reflexivity | apply run_settle]. Qed.

Lemma advance_next {A} env k (t : Async A) :
  advance env k (next env t) = next env (advance env k t).
Proof. induction k as [|k IH]; [done|]. simpl. by rewrite IH. Qed.

Lemma settled_job env k t st :
  in_flight (advance env k t) = false →
  ui (acts {| ui := st; jobs := [{| pending := t; outside := env |}] |}
        (replicate k (Settle 0)))
  = final (run env t st).
Proof.
  revert t st. induction k as [|k IH]; intros t st Hdone.
  - simpl in *. by destruct t.
  - cbn [replicate acts foldl act jobs ui lookup list_lookup pending outside].
    cbn [list_insert insert]. fold (acts
      {| ui := fst (resume env t st);
         jobs := [{| pending := snd (resume env t st); outside := env |}] |}
      (replicate k (Settle 0))).
    rewrite IH; [by rewrite <- run_resume|].
    rewrite resume_next, advance_next. exact Hdone.
Qed.

(** One job alone on the form, settled await by await, ends where its run
    ends. *)
Lemma one_job_on_the_form env file st :
  ui (acts {| ui := st; jobs := [] |} (Select file env :: replicate 6 (Settle 0)))
  = final (run env (handleScanFile file) st).
Proof.
  cbn [acts foldl act jobs ui app].
  fold (acts {| ui := fst (settle (handleScanFile file) st);
                jobs := [{| pending := snd (settle (handleScanFile file) st);
                            outside := env |}] |} (replicate 6 (Settle 0))).
  rewrite settled_job; [by rewrite <- run_settle|].
  rewrite settle_strip. by apply advance_over.
Qed.

(** ** What the logger publishes *)

Lemma logger_published m st :
  logger m st = match published m with
                | Some p => setOcrProgress p st
                | None => st
                end.
Proof. unfold logger, published, recognizing. by destruct (_ && _). Qed.

Lemma published_recognizing m p : published m = Some p → recognizing m = true.
Proof. unfold published. by destruct (recognizing m). Qed.

Lemma after_logger_progress msgs st :
  ocrProgress (after logger msgs st)
  = default (ocrProgress st) (last (omap published msgs)).
Proof.
  revert st. induction msgs as [|m msgs IH]; intros st; [done|].
  unfold after in *. simpl. rewrite IH, logger_published.
  destruct (published m) as [p|]; [|done]. simpl.
  rewrite last_cons. unfold omap. by destruct (last _).
Qed.

Lemma published_below p msgs :
  below p msgs → Forall (λ q, p ≤ q)%Z (omap published msgs).
Proof.
  unfold below. induction msgs as [|m msgs IH]; [constructor|].
  simpl. unfold published at 1.
  destruct (recognizing m); simpl.
  - intros H. inversion H; subst. destruct (negb _); [constructor|]; auto.
  - auto.
Qed.

Lemma published_steady msgs :
  steady msgs →
  StronglySorted Z.le (omap published msgs)
  ∧ Forall (λ p, 0 ≤ p ≤ 100)%Z (omap published msgs).
Proof.
  induction msgs as [|m msgs IH]; intros Hst; [split; constructor|].
  destruct (IH (steady_cons _ _ Hst)) as [Hs Hr].
  simpl. destruct (published m) as [p|] eqn:Hp; [|by split].
  pose proof (published_recognizing _ _ Hp) as Hrec.
  unfold published in Hp. rewrite Hrec in Hp. simpl in Hp.
  destruct (negb _); [|done]. injection Hp as <-.
  destruct Hst as [Hb Hsorted]. simpl in Hb, Hsorted. rewrite Hrec in Hb, Hsorted.
  inversion Hb as [|? ? [H0 H1] Hb']; subst.
  inversion Hsorted as [|? ? _ Hall]; subst.
  split; constructor; try done.
  - apply published_below. unfold below.
    eapply Forall_impl; [exact Hall|]. simpl. intros m' Hle.
    apply Math_round_mono. by apply times_mono.
  - by apply Math_round_percent.
Qed.

(** ** What a job hears *)

Lemma heard_by_snoc s l a j :
  heard_by s (l ++ [a]) j = heard_by s l j ++ hears (acts s l) a j.
Proof.
  revert s. induction l as [|b l IH]; intros s; simpl.
  - by rewrite app_nil_r.
  - by rewrite IH, app_assoc.
Qed.

Lemma jobs_grow s a : (length (jobs s) ≤ length (jobs (act s a)))%nat.
Proof.
  destruct a as [file env|i]; simpl.
  - rewrite length_app. simpl. lia.
  - destruct (jobs s !! i); simpl; [by rewrite length_insert | done].
Qed.

Lemma heard_by_absent s l j :
  jobs (acts s l) !! j = None → heard_by s l j = [].
Proof.
  revert s. induction l as [|a l IH]; intros s Hnone; [done|].
  simpl in *. rewrite (IH _ Hnone), app_nil_r.
  assert (jobs s !! j = None) as Hj.
  { apply lookup_ge_None. apply lookup_ge_None in Hnone.
    assert (length (jobs (act s a)) ≤ length (jobs (acts (act s a) l)))%nat as Hl.
    { clear. generalize (act s a). induction l as [|b l IH]; intros s'; [done|].
      simpl. etransitivity; [apply (jobs_grow s' b) | apply IH]. }
    pose proof (jobs_grow s a). unfold acts in *. lia. }
  destruct a as [|i]; simpl; [done|]. destruct (Nat.eqb i j); [|done]. by rewrite Hj.
Qed.

Lemma heard_by_job actions j file env :
  selections actions !! j = Some (file, env) →
  ∃ job k,
    jobs (acts idle actions) !! j = Some job
    ∧ outside job = env
    ∧ pending job = advance env k (strip (handleScanFile file))
    ∧ heard_by idle actions j = heard_until env file k.
Proof.
  revert j file env.
  induction actions as [|a actions IH] using rev_ind; intros j file env Hsel; [done|].
  rewrite acts_snoc, heard_by_snoc. rewrite selections_snoc in Hsel.
  destruct (reachable_form actions) as [Hjobs _]. cbv zeta in Hjobs.
  pose proof (Forall2_length _ _ _ Hjobs) as Hlen.
  destruct a as [file' env'|i].
  - cbn [act ui jobs hears]. rewrite app_nil_r.
    destruct (decide (j < length (selections actions))%nat) as [Hlt|Hge].
    + rewrite lookup_app_l in Hsel by done.
      destruct (IH _ _ _ Hsel) as (job & k & Hj & Henv & Hk & Hheard).
      exists job, k. rewrite lookup_app_l by (by eapply lookup_lt_Some). done.
    + rewrite lookup_app_r in Hsel by lia.
      destruct (j - length (selections actions))%nat as [|n] eqn:Hn; [|done].
      simpl in Hsel. injection Hsel as <- <-.
      assert (j = length (jobs (acts idle actions))) as -> by lia.
      eexists _, 0%nat. rewrite lookup_app_r, Nat.sub_diag by done.
      split; [reflexivity|]. split; [done|]. split; [apply settle_strip|].
      apply heard_by_absent. by apply lookup_ge_None.
  - rewrite app_nil_r in Hsel.
    destruct (IH _ _ _ Hsel) as (job & k & Hj & Henv & Hk & Hheard).
    cbn [act hears]. destruct (decide (i = j)) as [->|Hne].
    + rewrite Nat.eqb_refl, Hj. cbn [ui jobs].
      eexists _, (S k). rewrite list_lookup_insert_eq by (by eapply lookup_lt_Some).
      split; [reflexivity|]. split; [done|]. cbn [pending outside].
      split; [by rewrite resume_next, Hk, Henv|].
      simpl. by rewrite Hheard, Hk, Henv.
    + rewrite (proj2 (Nat.eqb_neq i j) Hne), app_nil_r.
      exists job, k. split; [|done].
      destruct (jobs (acts idle actions) !! i); [|done].
      cbn [jobs]. by rewrite list_lookup_insert_ne.
Qed.

Lemma heard_until_over env file k :
  (6 ≤ k)%nat → heard_until env file k = heard_until env file 6.
Proof.
  intros Hk. replace k with ((k - 6) + 6)%nat by lia.
  generalize (k - 6)%nat. clear. intros n. induction n as [|n IH]; [done|].
  change (S n + 6)%nat with (S (n + 6)). cbn [heard_until]. rewrite IH.
  pose proof (advance_over env file (n + 6) ltac:(lia)) as Hdone.
  destruct (advance env (n + 6) (strip (handleScanFile file))); try done;
    simpl; by rewrite app_nil_r.
Qed.

Ltac stages env file :=
  first [ match goal with |- context [recognize env ?i] => exists i end
        | exists (Blob file) ];
  first [ by exists []; rewrite app_nil_r, <- ?app_assoc
        | by eexists; rewrite <- ?app_assoc ].

Lemma heard_until_stages env file k :
  ∃ image more,
    fst (createWorker env) ++ fst (recognize env image) ++ fst (terminate env)
    = heard_until env file k ++ more.
Proof.
  destruct (le_lt_dec 6 k) as [Hk|Hk].
  - rewrite (heard_until_over env file k Hk).
    unfold heard_until, advance, next, handleScanFile, fileToBase64,
      renderPdfToImage, runOcrOnImage.
    drive env; rewrite ?app_nil_r; stages env file.
  - destruct k as [|[|[|[|[|[|k]]]]]]; [..| lia];
      unfold heard_until, advance, next, handleScanFile, fileToBase64,
        renderPdfToImage, runOcrOnImage;
      drive env; rewrite ?app_nil_r; stages env file.
Qed.

Lemma settle_progress env file k st :
  let t := advance env k (strip (handleScanFile file)) in
  ocrProgress (fst (resume env t st))
  = default (ocrProgress st) (last (omap published (messages env t))).
Proof.
  cbv zeta. destruct (le_lt_dec 6 k) as [Hk|Hk].
  { pose proof (advance_over env file k Hk) as Hf.
    rewrite resume_finished by done.
    by destruct (advance env k (strip (handleScanFile file))). }
  unfold resume, handleScanFile, fileToBase64, renderPdfToImage, runOcrOnImage, next.
  destruct k as [|[|[|[|[|[|k]]]]]]; [..| lia];
    drive env; rewrite ?after_logger_progress; done.
Qed.

Lemma job_alone_starts_at_0 env file st :
  head (ocrProgress <$> shown (run env (handleScanFile file) st)) = Some 0%Z.
Proof.
  unfold handleScanFile, fileToBase64. cbn -[fallback trim heard after].
  reflexivity.
Qed.

(** ** The claims about the ingestion pipeline *)

(** C5.  Whatever the outside does, a run of [handleScanFile] returns: no
    exception leaves it, the busy flag is down at the end and the file is
    still selected, so the note can be saved.  When nothing it awaited
    rejected, the transcript is the recognized text without the white space
    at its two ends (what is cut off is white space only, and what is left
    neither starts nor ends with white space); when something it awaited
    rejected (reading the file, rendering the page, loading or creating the
    worker, recognizing, terminating), the transcript is the fixed message
    ["Unable to extract text. Please try a clearer scan."]. *)
Theorem handleScanFile_ends_with_transcript env file st :
  let r := run env (handleScanFile file) st in
  result r = Some tt
  ∧ ocrBusy (final r) = false
  ∧ scanFile (final r) = Some file
  ∧ (∀ text, recognized env file = Fulfilled text →
       ocrText (final r) = trim text
       ∧ ∃ before behind,
           text = before ++ trim text ++ behind
           ∧ Forall (λ c, isWhiteSpace c = true) before
           ∧ Forall (λ c, isWhiteSpace c = true) behind
           ∧ (∀ c, head (trim text) = Some c → isWhiteSpace c = false)
           ∧ (∀ c, last (trim text) = Some c → isWhiteSpace c = false))
  ∧ (recognized env file = Rejected → ocrText (final r) = fallback).
Proof.
  cbv zeta.
  destruct (run_final_cells env file st) as (Htext & Hbusy & Hfile).
  split; [apply run_result|]. split; [exact Hbusy|]. split; [exact Hfile|].
  unfold transcript in Htext. split.
  - intros text Hok. rewrite Hok in Htext. split; [exact Htext|].
    destruct (trim_split text) as (before & behind & Hsplit & Hb & He).
    destruct (trim_ends text) as [Hhead Hlast].
    exists before, behind. auto.
  - intros Hfail. by rewrite Hfail in Htext.
Qed.

(** C6, as the code has it.  The logger publishes a percentage only for a
    message of the ["recognizing text"] sub-stage with a progress other
    than zero, as [Math.round(progress * 100)], and leaves the cell alone on
    every other message; selecting a file always puts 0 on show.  In every
    course of selections and settlements from the idle form, a settlement
    leaves on show the last percentage its job published meanwhile (what
    was there when it published none), and, given a recognizer whose
    ["recognizing text"] messages carry a progress in [0,1] that never
    decreases, the percentages one job publishes never decrease and stay
    between 0 and 100, whatever the other jobs do.  The percentages on show
    are those of one job only while it runs alone: they then start at 0,
    never decrease and stay between 0 and 100. *)
Theorem published_progress_never_decreases :
  (∀ m st, ocrProgress (logger m st) = default (ocrProgress st) (published m))
  ∧ (∀ m st, status m ≠ "recognizing text" → published m = None ∧ logger m st = st)
  ∧ (∀ s file env, ocrProgress (ui (act s (Select file env))) = 0%Z)
  ∧ (∀ actions j,
       let s := acts idle actions in
       ocrProgress (ui (act s (Settle j)))
       = default (ocrProgress (ui s)) (last (omap published (hears s (Settle j) j))))
  ∧ (∀ actions j file env,
       selections actions !! j = Some (file, env) →
       well_behaved env →
       let percentages := omap published (heard_by idle actions j) in
       StronglySorted Z.le percentages ∧ Forall (λ p, 0 ≤ p ≤ 100)%Z percentages)
  ∧ (∀ env file st,
       well_behaved env →
       let percentages := ocrProgress <$> shown (run env (handleScanFile file) st) in
       head percentages = Some 0%Z
       ∧ StronglySorted Z.le percentages
       ∧ Forall (λ p, 0 ≤ p ≤ 100)%Z percentages).
Proof.
  split; [|split; [|split; [|split; [|split]]]].
  - intros m st. rewrite logger_published. by destruct (published m).
  - intros m st Hstatus.
    assert (recognizing m = false) as Hrec by (by apply String.eqb_neq).
    split; [unfold published; by rewrite Hrec | by apply logger_quiet].
  - reflexivity.
  - intros actions j. cbv zeta. cbn [hears act]. rewrite Nat.eqb_refl.
    destruct (reachable_form actions) as [Hjobs _]. cbv zeta in Hjobs.
    destruct (jobs (acts idle actions) !! j) as [job|] eqn:Hj; [|done].
    destruct (Forall2_lookup_r _ _ _ _ _ Hjobs Hj) as ([file env] & _ & Henv & k & Hk).
    cbn [fst snd] in Henv, Hk. cbn [ui]. rewrite Hk, Henv.
    apply settle_progress.
  - intros actions j file env Hsel Hwb. cbv zeta.
    destruct (heard_by_job actions j file env Hsel) as (job & k & _ & _ & _ & ->).
    destruct (heard_until_stages env file k) as (image & more & Hstages).
    apply published_steady. apply (steady_app_l _ more).
    rewrite <- Hstages. apply Hwb.
  - intros env file st Hwb. cbv zeta.
    destruct (shown_rising env file st Hwb) as (_ & Hsorted & Hrange).
    split; [apply job_alone_starts_at_0 | by split].
Qed.

(** C7, as the code has it.  [handleScanFile] looks at the declared media
    type only to tell PDF from the rest.  A file that is not a PDF, image
    or not, is never rendered; it is handed to the recognizer as it is as
    soon as reading it, loading tesseract and creating the worker have
    succeeded, and nothing else is ever handed to the recognizer; when the
    recognizer is not reached the transcript is the fixed message. *)
Theorem non_pdf_file_is_recognized_as_it_is env file st :
  type file ≠ "application/pdf" →
  let r := run env (handleScanFile file) st in
  (∀ f, CallRenderFirstPage f ∉ calls r)
  ∧ (∀ image, CallRecognize image ∈ calls r → image = Blob file)
  ∧ ((∃ preview, readAsDataURL env file = Fulfilled preview) →
     importTesseract env = Fulfilled tt →
     snd (createWorker env) = Fulfilled tt →
     CallRecognize (Blob file) ∈ calls r)
  ∧ (CallRecognize (Blob file) ∉ calls r → ocrText (final r) = fallback).
Proof.
  intros Hnot. pose proof (run_final_cells env file st) as (Htext & _).
  cbv zeta in *.
  job_cases env file;
    try (apply String.eqb_eq in Hpdf; contradiction);
    (split; [|split; [|split]]).
  all: try (intros f Hin;
            repeat (apply elem_of_cons in Hin as [Hin|Hin]; [by simplify_eq|]);
            by apply elem_of_nil in Hin).
  all: try (intros [? ?] ? ?; first [congruence | repeat constructor]).
  all: intros Hnone; first [exact Htext | exfalso; apply Hnone; repeat constructor].
Qed.

(** C8, as the code has it.  Selecting a file puts the new file on show and
    resets preview, transcript, progress and busy flag, but cancels nothing:
    the jobs in flight stay as they are and there is one more of them.  And
    in every course of selections and settlements from the idle form, the
    settlement that finishes a job writes that job's own transcript and
    lowers the busy flag, while the file on show is the one selected last. *)
Theorem newer_selection_does_not_cancel :
  (∀ s file env,
     let s' := act s (Select file env) in
     ui s' = {| scanFile := Some file; scanPreview := None; ocrText := js "";
                ocrProgress := 0; ocrBusy := true |}
     ∧ (∃ job, jobs s' = jobs s ++ [job] ∧ in_flight (pending job) = true)
     ∧ active s' = S (active s))
  ∧ (∀ actions j file env,
       selections actions !! j = Some (file, env) →
       let s := acts idle actions in
       let s' := act s (Settle j) in
       busy s j = true → busy s' j = false →
       ocrText (ui s') = transcript env file
       ∧ ocrBusy (ui s') = false
       ∧ scanFile (ui s') = fst <$> last (selections actions)).
Proof.
  split.
  - intros s file env. cbv zeta. split; [done|]. split.
    + eexists. split; [reflexivity | reflexivity].
    + unfold active at 1. simpl. by rewrite active_snoc.
  - intros actions j file env Hsel. cbv zeta.
    destruct (reachable_form actions) as [Hjobs Hfile]. cbv zeta in *.
    destruct (Forall2_lookup_l _ _ _ _ _ Hjobs Hsel) as (job & Hj & Henv & k & Hk).
    cbn [fst snd] in Henv, Hk. unfold busy. cbn [act]. rewrite Hj. cbn [ui jobs].
    rewrite list_lookup_insert_eq by (by eapply lookup_lt_Some).
    cbn [pending]. rewrite resume_next, Hk, Henv. intros Hbusy Hdone.
    destruct (settle_job env file k (ui (acts idle actions))) as [-> Hend].
    destruct (Hend Hbusy Hdone) as [-> ->]. done.
Qed.

(** ** The claims at sample jobs *)

Lemma reads_well_behaved text : well_behaved (reads text).
Proof.
  intros image. unfold steady. simpl. split.
  - repeat constructor; unfold Qle; simpl; lia.
  - repeat constructor; unfold Qle; simpl; lia.
Qed.

(** [Math.round(0.015 * 100)] is 2: the double written [0.015] is a little
    below 15/1000, and its product with 100 is rounded to the double 1.5
    before [Math.round] sees it. *)
Example product_is_rounded_before_Math_round :
  Math_round (times (binary64 (15 # 1000)) 100) = 2%Z
  ∧ Math_round (binary64 (15 # 1000) * 100)%Q = 1%Z.
Proof. by vm_compute. Qed.

Example trim_two_words : trim (js "  two words ") = js "two words".
Proof. reflexivity. Qed.

Example a_reading_ends_with_its_text :
  ocrText (final (run (reads "  two words ") (handleScanFile scanA) blank))
  = js "two words".
Proof.
  destruct (handleScanFile_ends_with_transcript (reads "  two words ") scanA blank)
    as (_ & _ & _ & Hok & _).
  destruct (Hok (js "  two words ") eq_refl) as [Htext _].
  rewrite Htext. reflexivity.
Defined.

Lemma glimpses_well_behaved text : well_behaved (glimpses text).
Proof.
  intros image. unfold steady. simpl. split.
  - repeat constructor; unfold Qle; simpl; lia.
  - repeat constructor.
Qed.

(** C6 as it is stated fails: the cell is shared by the jobs in flight.
    While the first file is being recognized a second one is selected,
    which puts 0 on show; the recognition of the first one resolves at 100,
    then that of the second one at 30, with no selection in between; both
    recognizers keep to the contract. *)
Lemma overlapping_jobs_lower_the_progress :
  well_behaved (reads "first scan")
  ∧ well_behaved (glimpses "second scan")
  ∧ selections (drop 5 overlapping) = []
  ∧ scanFile (ui (acts idle (take 8 overlapping))) = Some scanB
  ∧ [ocrProgress (ui (acts idle (take 8 overlapping)));
     ocrProgress (ui (acts idle (take 9 overlapping)));
     ocrProgress (ui (acts idle overlapping))] = [0; 100; 30]%Z.
Proof.
  split; [apply reads_well_behaved|]. split; [apply glimpses_well_behaved|].
  vm_compute. repeat split.
Qed.

Example progress_of_two_readings :
  StronglySorted Z.le (omap published (heard_by idle overlapping 1))
  ∧ StronglySorted Z.le
      (ocrProgress <$> shown (run (reads "two words") (handleScanFile referral) blank)).
Proof.
  destruct published_progress_never_decreases as (_ & _ & _ & _ & Hjob & Halone).
  split.
  - apply (Hjob overlapping 1%nat scanB (glimpses "second scan") eq_refl
             (glimpses_well_behaved "second scan")).
  - apply (Halone (reads "two words") referral blank (reads_well_behaved "two words")).
Defined.

(** C7 as it is stated fails: a text file, which the file input does not
    ask for, is read, and the worker is created and given the file. *)
Lemma text_file_is_handed_to_recognizer :
  accepted notes_txt = false
  ∧ calls (run undecodable (handleScanFile notes_txt) blank)
    = [CallReadAsDataURL notes_txt; CallImportTesseract; CallCreateWorker;
       CallRecognize (Blob notes_txt)].
Proof. split; reflexivity. Qed.

Example text_file_reaches_recognizer :
  CallRecognize (Blob notes_txt)
    ∈ calls (run undecodable (handleScanFile notes_txt) blank).
Proof.
  destruct (non_pdf_file_is_recognized_as_it_is undecodable notes_txt blank)
    as (_ & _ & Hreached & _); [discriminate|].
  apply Hreached; [by eexists | reflexivity | reflexivity].
Defined.

(** C8 as it is stated fails: while the first file is being recognized a
    second one is selected, so that two jobs are in flight; the second job
    finishes with its text; then the recognition of the first file resolves
    and its text replaces the transcript, under the second file. *)
Lemma stale_result_replaces_newer :
  active (acts idle (take 5 overtaken)) = 2%nat
  ∧ ocrText (ui (acts idle (take 10 overtaken))) = js "second scan"
  ∧ scanFile (ui (acts idle overtaken)) = Some scanB
  ∧ ocrText (ui (acts idle overtaken)) = js "first scan".
Proof. vm_compute. repeat split. Qed.

Example first_job_finishes_under_second_file :
  let s' := act (acts idle (take 11 overtaken)) (Settle 0) in
  ocrText (ui s') = transcript (reads "first scan") scanA
  ∧ ocrBusy (ui s') = false
  ∧ scanFile (ui s') = Some scanB.
Proof.
  destruct newer_selection_does_not_cancel as [_ Hfinish].
  assert (busy (acts idle (take 11 overtaken)) 0 = true) as Hbusy
    by (vm_compute; reflexivity).
  assert (busy (act (acts idle (take 11 overtaken)) (Settle 0)) 0 = false) as Hdone
    by (vm_compute; reflexivity).
  exact (Hfinish (take 11 overtaken) 0%nat scanA (reads "first scan")
           eq_refl Hbusy Hdone).
Defined.

End PageProperties.

(** * Further properties of the notes route *)

Section RouteExtras.
Import Route.

Variable new_ObjectId : JsValue → option N.
Variable toString : N → string.

(** Every way a [PATCH] can end. *)
Lemma PATCH_cases session body now (notes : gmap N Note) :
  snd (PATCH new_ObjectId session body now notes) = notes
  ∨ ∃ who oid n,
      caller session = Some who
      ∧ truthy (prop body "id") = true
      ∧ truthy (prop body "title") = true
      ∧ new_ObjectId (prop body "id") = Some oid
      ∧ notes !! oid = Some n
      ∧ doctorId n = who
      ∧ PATCH new_ObjectId session body now notes
        = (json SuccessJson,
           <[oid := updateData n (prop body "title") (prop body "contentHtml")
                      (prop body "ocrText") now n]> notes).
Proof.
  destruct (caller session) as [who|] eqn:Hc;
    [|left; unfold PATCH; by rewrite Hc].
  destruct (destructure body) as [field|] eqn:Hd;
    [|left; unfold PATCH; by rewrite Hc, Hd].
  assert (field = prop body) as -> by (destruct body; simpl in Hd; congruence).
  destruct (truthy (prop body "id")) eqn:Hid;
    [|left; unfold PATCH; by rewrite Hc, Hd, Hid].
  destruct (truthy (prop body "title")) eqn:Ht;
    [|left; unfold PATCH; by rewrite Hc, Hd, Hid, Ht].
  destruct (new_ObjectId (prop body "id")) as [oid|] eqn:Hoid;
    [|left; unfold PATCH; by rewrite Hc, Hd, Hid, Ht, Hoid].
  destruct (findOne oid who notes) as [n|] eqn:Hf;
    [|left; unfold PATCH; by rewrite Hc, Hd, Hid, Ht, Hoid, Hf].
  apply findOne_Some in Hf as [Hn Hw].
  right. exists who, oid, n. repeat (split; [done|]).
  by eapply PATCH_owned.
Qed.

Lemma DELETE_cases session body (notes : gmap N Note) :
  snd (DELETE new_ObjectId session body notes) = notes
  ∨ ∃ who oid n,
      caller session = Some who
      ∧ truthy (prop body "id") = true
      ∧ new_ObjectId (prop body "id") = Some oid
      ∧ notes !! oid = Some n
      ∧ doctorId n = who
      ∧ DELETE new_ObjectId session body notes = (json SuccessJson, delete oid notes).
Proof.
  destruct (caller session) as [who|] eqn:Hc;
    [|left; unfold DELETE; by rewrite Hc].
  destruct (destructure body) as [field|] eqn:Hd;
    [|left; unfold DELETE; by rewrite Hc, Hd].
  assert (field = prop body) as -> by (destruct body; simpl in Hd; congruence).
  destruct (truthy (prop body "id")) eqn:Hid;
    [|left; unfold DELETE; by rewrite Hc, Hd, Hid].
  destruct (new_ObjectId (prop body "id")) as [oid|] eqn:Hoid;
    [|left; unfold DELETE; by rewrite Hc, Hd, Hid, Hoid].
  destruct (findOne oid who notes) as [n|] eqn:Hf;
    [|left; unfold DELETE; by rewrite Hc, Hd, Hid, Hoid, Hf].
  apply findOne_Some in Hf as [Hn Hw].
  right. exists who, oid, n. repeat (split; [done|]).
  by eapply DELETE_owned.
Qed.

Lemma POST_cases session body now fresh (notes : gmap N Note) :
  snd (POST toString session body now fresh notes) = notes
  ∨ ∃ who doc,
      caller session = Some who
      ∧ notes !! fresh = None
      ∧ doctorId doc = who
      ∧ POST toString session body now fresh notes
        = (json (IdJson (toString fresh)), <[fresh := doc]> notes).
Proof.
  unfold POST, insertOne.
  destruct (caller session) as [who|] eqn:Hc; [|by left].
  destruct (destructure body) as [field|]; [|by left].
  destruct (negb (truthy (field "title")) || negb (truthy (field "source"))); [by left|].
  destruct (notes !! fresh) eqn:Hfresh; [by left|].
  right. eexists _, _. split; [done|]. split; [done|]. split; [|reflexivity]. done.
Qed.

(** X1.  The four handlers of the notes route share one gate.  Either the
    session carries no e-mail (no session, no user, no e-mail, or the empty
    string) and all four answer 401 [Unauthorized] and leave the collection as
    it is; or it carries a non-empty e-mail and none of the four answers 401,
    whatever the body and the collection. *)
Theorem only_a_session_with_an_email_is_served
    session body now fresh (notes : gmap N Note) :
  ((session_email session = None ∨ session_email session = Some "")
   ∧ GET toString session notes = (unauthorized, notes)
   ∧ POST toString session body now fresh notes = (unauthorized, notes)
   ∧ PATCH new_ObjectId session body now notes = (unauthorized, notes)
   ∧ DELETE new_ObjectId session body notes = (unauthorized, notes))
  ∨ (∃ who, session_email session = Some who ∧ who ≠ ""
     ∧ fst (GET toString session notes) ≠ unauthorized
     ∧ fst (POST toString session body now fresh notes) ≠ unauthorized
     ∧ fst (PATCH new_ObjectId session body now notes) ≠ unauthorized
     ∧ fst (DELETE new_ObjectId session body notes) ≠ unauthorized).
Proof.
  unfold GET, POST, PATCH, DELETE, caller.
  destruct (session_email session) as [e|]; [|left; by auto].
  destruct (String.eqb_spec e "") as [->|He]; [left; by auto|].
  right. exists e. repeat split; try done.
  all: repeat case_match; simpl; discriminate.
Qed.

(** X2.  A [PATCH] or [DELETE] of an authenticated caller whose body has
    no usable [id] (missing, [null], empty, [false] or zero) never reaches
    the [ObjectId] constructor or the collection: it is answered 400
    ([Missing required fields.] by [PATCH], [Missing note ID] by [DELETE]),
    or throws when the body itself is [null]; the collection is unchanged. *)
Theorem request_without_id_is_refused_before_any_lookup
    session body now (notes : gmap N Note) who :
  caller session = Some who →
  truthy (prop body "id") = false →
  PATCH new_ObjectId session body now notes
    = (match body with JNull => Thrown | _ => missing_fields end, notes)
  ∧ DELETE new_ObjectId session body notes
    = (match body with JNull => Thrown | _ => missing_id end, notes).
Proof.
  intros Hc Hid. unfold PATCH, DELETE. rewrite Hc.
  destruct body; simpl in *; try done; by rewrite Hid.
Qed.


(** X4.  [PATCH] neither creates nor removes a note, and on every note it
    leaves the owner, the origin, the creation date and the four fields of
    the uploaded file as they were, whatever the request. *)
Theorem patch_keeps_identity_of_every_note session body now (notes : gmap N Note) oid :
  match notes !! oid, snd (PATCH new_ObjectId session body now notes) !! oid with
  | Some n, Some n' =>
      doctorId n' = doctorId n ∧ source n' = source n ∧ createdAt n' = createdAt n
      ∧ fileUrl n' = fileUrl n ∧ fileName n' = fileName n
      ∧ fileType n' = fileType n ∧ filePublicId n' = filePublicId n
  | None, None => True
  | _, _ => False
  end.
Proof.
  destruct (PATCH_cases session body now notes)
    as [-> | (who & oid' & n & _ & _ & _ & _ & Hn & _ & ->)].
  - by destruct (notes !! oid).
  - simpl. destruct (decide (oid' = oid)) as [<-|Hne].
    + rewrite lookup_insert_eq, Hn. unfold updateData.
      by destruct (strict_eq_str (source n) "manual").
    + rewrite lookup_insert_ne by done. by destruct (notes !! oid).
Qed.

(** X5.  [POST] only adds and [DELETE] only removes, and each by one note
    at most: the collection before a [POST] is included in the one after it,
    which has at most one note more; the collection after a [DELETE] is
    included in the one before it, which has at most one note more. *)
Theorem post_and_delete_change_one_note_at_most
    session body now fresh (notes : gmap N Note) :
  notes ⊆ snd (POST toString session body now fresh notes)
  ∧ (size (snd (POST toString session body now fresh notes)) ≤ S (size notes))%nat
  ∧ snd (DELETE new_ObjectId session body notes) ⊆ notes
  ∧ (size notes ≤ S (size (snd (DELETE new_ObjectId session body notes))))%nat.
Proof.
  split; [|split; [|split]].
  - destruct (POST_cases session body now fresh notes)
      as [-> | (who' & doc & _ & Hfresh & _ & ->)]; [done|].
    simpl. by apply insert_subseteq.
  - destruct (POST_cases session body now fresh notes)
      as [-> | (who' & doc & _ & Hfresh & _ & ->)]; [lia|].
    simpl. rewrite map_size_insert_None by done. lia.
  - destruct (DELETE_cases session body notes)
      as [-> | (who' & oid' & n' & _ & _ & _ & Hn' & _ & ->)]; [done|].
    simpl. apply delete_subseteq.
  - destruct (DELETE_cases session body notes)
      as [-> | (who' & oid' & n' & _ & _ & _ & Hn' & _ & ->)]; [lia|].
    simpl. rewrite map_size_delete, Hn'. simpl. lia.
Qed.


Lemma set_manual_twice t now html t' now' html' n :
  set_manual t' now' html' (set_manual t now html n) = set_manual t' now' html' n.
Proof. reflexivity. Qed.

Lemma set_scan_twice t now text t' now' text' n :
  set_scan t' now' text' (set_scan t now text n) = set_scan t' now' text' n.
Proof. reflexivity. Qed.



(** X7.  A note created by [POST] is in the answer of the caller's next
    [GET], under the identifier [POST] returned, with the title and origin
    of the request and the creation date of the call; the caller's earlier
    notes are still listed, and the lists of the other doctors are the
    same as before. *)
Theorem created_note_is_listed session body now fresh (notes : gmap N Note) who :
  caller session = Some who →
  truthy (prop body "title") = true →
  truthy (prop body "source") = true →
  notes !! fresh = None →
  ∃ doc found,
    POST toString session body now fresh notes
      = (json (IdJson (toString fresh)), <[fresh := doc]> notes)
    ∧ GET toString session (<[fresh := doc]> notes)
      = (json (NotesJson (serialize toString <$> found)), <[fresh := doc]> notes)
    ∧ (fresh, doc) ∈ found
    ∧ json_id (serialize toString (fresh, doc)) = toString fresh
    ∧ Some (json_title (serialize toString (fresh, doc))) = prop body "title"
    ∧ Some (json_source (serialize toString (fresh, doc))) = prop body "source"
    ∧ json_createdAt (serialize toString (fresh, doc)) = Some (Iso now)
    ∧ (∀ oid n, notes !! oid = Some n → doctorId n = who → (oid, n) ∈ found)
    ∧ (∀ other, other ≠ who →
       ∀ kv, kv ∈ find_by_doctor other (<[fresh := doc]> notes)
             ↔ kv ∈ find_by_doctor other notes).
Proof.
  intros Hc Ht Hs Hfresh.
  assert (destructure body = Some (prop body)) as Hd by (by eapply truthy_destructure).
  eexists _, _. split.
  { unfold POST, insertOne. rewrite Hc, Hd, Ht, Hs, Hfresh. reflexivity. }
  split; [unfold GET; by rewrite Hc|].
  split; [apply elem_of_find_by_doctor; by rewrite lookup_insert_eq|].
  split; [done|]. split; [by apply truthy_bson|]. split; [by apply truthy_bson|].
  split; [done|]. split.
  - intros oid n Hn Hw. apply elem_of_find_by_doctor.
    rewrite lookup_insert_ne; [done|]. congruence.
  - intros other Hother [oid n]. rewrite !elem_of_find_by_doctor.
    destruct (decide (fresh = oid)) as [<-|Hne].
    + rewrite lookup_insert_eq, Hfresh. split; [|intros [? _]; done].
      intros [[= <-] Hd']. simpl in Hd'. congruence.
    + by rewrite lookup_insert_ne.
Qed.

(** X8.  Creating a note and deleting it by the identifier [POST] returned
    gives back the collection as it was before, provided the [ObjectId]
    constructor reads back the text of the identifier. *)
Theorem create_then_delete_restores session body now fresh (notes : gmap N Note) who :
  caller session = Some who →
  truthy (prop body "title") = true →
  truthy (prop body "source") = true →
  notes !! fresh = None →
  toString fresh ≠ "" →
  new_ObjectId (Some (JStr (toString fresh))) = Some fresh →
  DELETE new_ObjectId session (JObj [("id", JStr (toString fresh))])
    (snd (POST toString session body now fresh notes))
  = (json SuccessJson, notes).
Proof.
  intros Hc Ht Hs Hfresh Hne Hround.
  assert (destructure body = Some (prop body)) as Hd by (by eapply truthy_destructure).
  unfold POST, insertOne. rewrite Hc, Hd, Ht, Hs, Hfresh.
  lazy beta iota zeta delta [negb orb snd].
  set (body' := JObj [("id", JStr (toString fresh))]).
  assert (truthy (prop body' "id") = true) as Hid.
  { simpl. by apply negb_true_iff, String.eqb_neq. }
  erewrite (DELETE_owned new_ObjectId session body' _ who fresh _
              Hc Hid Hround (lookup_insert_eq _ _ _)); [|reflexivity].
  by rewrite delete_insert_eq, delete_id.
Qed.


End RouteExtras.

(** * Further properties of the scan form *)

Section PageExtras.
Import Page.

Ltac ocr_stage env image :=
  destruct (importTesseract env) as [[]|] eqn:Himport; cbn -[fallback trim heard after] in *;
  [ destruct (snd (createWorker env)) as [[]|] eqn:Hcreate; cbn -[fallback trim heard after] in *;
    [ destruct (snd (recognize env image)) as [text|] eqn:Hrecognize;
      cbn -[fallback trim heard after] in *;
      [ destruct (snd (terminate env)) as [[]|] eqn:Hterminate;
        cbn -[fallback trim heard after] in * | ] | ] | ].

Ltac job_cases env file :=
  unfold transcript, recognized, ocr_input, handleScanFile, fileToBase64,
    renderPdfToImage, runOcrOnImage in *;
  cbn -[fallback trim heard after] in *;
  destruct (readAsDataURL env file) as [preview|] eqn:Hread;
  cbn -[fallback trim heard after] in *;
  [ destruct (String.eqb (type file) "application/pdf") eqn:Hpdf;
    cbn -[fallback trim heard after] in *;
    [ destruct (renderFirstPage env file) as [url|] eqn:Hrender;
      cbn -[fallback trim heard after] in *;
      [ ocr_stage env (DataUrl url) | ]
    | ocr_stage env (Blob file) ]
  | ].


Lemma trimStart_white s :
  Forall (λ c, isWhiteSpace c = true) s → trimStart s = [].
Proof. induction 1 as [|c s Hc _ IH]; [done|]. simpl. by rewrite Hc. Qed.

(** X10.  When the recognizer returns only white space, the job ends with
    the empty transcript, not with the fallback message: a blank page and a
    failed recognition are told apart. *)
Theorem blank_text_gives_empty_transcript env file st text :
  recognized env file = Fulfilled text →
  Forall (λ c, isWhiteSpace c = true) text →
  ocrText (final (run env (handleScanFile file) st)) = js ""
  ∧ ocrText (final (run env (handleScanFile file) st)) ≠ fallback.
Proof.
  intros Hok Hwhite.
  destruct (run_final_cells env file st) as (-> & _).
  unfold transcript. rewrite Hok. unfold trim, trimEnd.
  rewrite (trimStart_white _ Hwhite). split; [reflexivity | discriminate].
Qed.


(** X12.  For a PDF the recognizer is given the rendering of the first
    page of that file and nothing else; when the rendering fails the
    recognizer library is not even imported, and when the file cannot be
    read nothing else is asked of the outside; both end with the fallback
    message. *)
Theorem pdf_is_recognized_from_its_first_page env file st :
  type file = "application/pdf" →
  let r := run env (handleScanFile file) st in
  (∀ image, CallRecognize image ∈ calls r →
     (∃ url, renderFirstPage env file = Fulfilled url ∧ image = DataUrl url))
  ∧ (∀ f, CallRenderFirstPage f ∈ calls r → f = file)
  ∧ (renderFirstPage env file = Rejected →
     (CallImportTesseract ∉ calls r) ∧ ocrText (final r) = fallback)
  ∧ (readAsDataURL env file = Rejected →
     calls r = [CallReadAsDataURL file] ∧ ocrText (final r) = fallback).
Proof.
  intros Hpdf'. pose proof (run_final_cells env file st) as (Htext & _).
  cbv zeta in *.
  assert (String.eqb (type file) "application/pdf" = true) as Heq
    by (by apply String.eqb_eq).
  job_cases env file; try congruence;
    (split; [|split; [|split]]).
  all: try (intros x Hin;
            repeat (apply elem_of_cons in Hin as [Hin|Hin];
                    [first [discriminate | injection Hin as ->; eauto]|]);
            by apply elem_of_nil in Hin).
  all: try (intros ?; discriminate).
  all: try (intros _; split; [|done]; intros Hin;
            repeat (apply elem_of_cons in Hin as [Hin|Hin]; [discriminate|]);
            by apply elem_of_nil in Hin).
  all: try (intros _; by split).
Qed.

Ltac not_in Hin :=
  repeat (apply elem_of_cons in Hin as [Hin|Hin]; [discriminate|]);
  by apply elem_of_nil in Hin.

Ltac is_in := repeat first [apply list_elem_of_here | apply list_elem_of_further].

(** X13.  The worker is terminated exactly when the recognition succeeded.
    In particular a worker whose recognition failed is never terminated. *)
Theorem worker_is_terminated_only_after_recognition env file st :
  let r := run env (handleScanFile file) st in
  (CallTerminate ∈ calls r ↔
     ∃ image text, ocr_input env file = Fulfilled image
                   ∧ importTesseract env = Fulfilled tt
                   ∧ snd (createWorker env) = Fulfilled tt
                   ∧ snd (recognize env image) = Fulfilled text)
  ∧ (∀ image, CallRecognize image ∈ calls r →
       snd (recognize env image) = Rejected → CallTerminate ∉ calls r).
Proof.
  cbv zeta.
  job_cases env file; split.
  all: try (split;
            [ intros Hin;
              first [ not_in Hin
                    | eexists _, _; repeat split; first [eassumption | reflexivity] ]
            | intros (image' & text' & Hi & Him & Hcr & Hrec);
              simplify_eq; first [congruence | is_in] ]).
  all: intros image Hin Hrej Hin';
       first [ not_in Hin'
             | repeat (apply elem_of_cons in Hin as [Hin|Hin];
                       [first [discriminate | injection Hin as ->; congruence]|]);
               by apply elem_of_nil in Hin ].
Qed.

End PageExtras.

(** * Properties of the upload route *)

Section UploadProperties.
Import Page Upload.

Lemma digits_of_uint d :
  Forall (λ c, isSafe c = true) (js (NilEmpty.string_of_uint d)).
Proof. induction d; simpl; constructor; done. Qed.

Lemma decimal_safe n : Forall (λ c, isSafe c = true) (decimal n).
Proof.
  unfold decimal, NilZero.string_of_uint.
  pose proof (digits_of_uint (N.to_uint n)) as H.
  destruct (N.to_uint n); try exact H.
  by repeat constructor.
Qed.

Lemma sanitize_chars name :
  Forall (λ c, isSafe c = true ∨ c = 95%N) (sanitize name).
Proof.
  unfold sanitize. apply Forall_fmap, Forall_forall. intros c _. simpl.
  destruct (isSafe c) eqn:Hc; auto.
Qed.

(** X14.  The sanitized file name has the length of the file name, is left
    alone by a second sanitizing, and is the file name itself when that is
    made of letters, digits, dots and hyphens.  The public identifier of an
    upload is made of such characters and underscores only; in particular it
    holds no slash, so it names a file of the caller's folder. *)
Theorem sanitized_name_is_safe now name :
  length (sanitize name) = length name
  ∧ sanitize (sanitize name) = sanitize name
  ∧ (Forall (λ c, isSafe c = true) name → sanitize name = name)
  ∧ Forall (λ c, isSafe c = true ∨ c = 95%N) (public_id_of now name)
  ∧ 47%N ∉ public_id_of now name.
Proof.
  assert (Forall (λ c, isSafe c = true ∨ c = 95%N) (public_id_of now name)) as Hall.
  { unfold public_id_of. rewrite !Forall_app. split; [|split].
    - eapply Forall_impl; [apply decimal_safe|]. simpl. auto.
    - constructor; [by right | constructor].
    - apply sanitize_chars. }
  split; [apply length_fmap|]. split; [|split; [|split; [exact Hall|]]].
  - unfold sanitize. rewrite <- list_fmap_compose. apply list_fmap_ext.
    intros _ c _. simpl. destruct (isSafe c) eqn:Hc; [by rewrite Hc | done].
  - intros Hsafe. unfold sanitize. rewrite <- (list_fmap_id name) at 2.
    apply Forall_fmap_ext_1. eapply Forall_impl; [exact Hsafe|].
    simpl. by intros c ->.
  - intros Hin. rewrite Forall_forall in Hall.
    destruct (Hall _ Hin) as [H|H]; discriminate.
Qed.

Lemma folder_of_caller session who :
  Route.caller session = Some who → folder_of session = "lief_notes/" +:+ who.
Proof.
  unfold folder_of, Route.caller.
  destruct (Route.session_email session) as [e|]; [|done].
  destruct (String.eqb e ""); [done|]. by intros [= ->].
Qed.

(** X15.  An authenticated upload goes to the folder named after the
    caller's e-mail (the [unknown] folder is never used), under the public
    identifier made of the time and the sanitized name, without
    overwriting; the answer is 200 with the URL and identifier reported,
    or 500 with the message of the error reported. *)
Theorem upload_goes_to_the_callers_folder
    session now file bytes cloudinary who :
  Route.caller session = Some who →
  arrayBuffer file = Ok bytes →
  POST session now (Ok (FileValue file)) cloudinary
  = match cloudinary {| resource_type := "auto";
                        folder := "lief_notes/" +:+ who;
                        public_id := public_id_of now (name file);
                        overwrite := false |} bytes with
    | UploadThrew => Thrown
    | UploadError message =>
        Returned {| status := 500; payload := FailedJson "Upload failed" message |}
    | UploadResult url publicId =>
        Returned {| status := 200; payload := UploadedJson url publicId |}
    end.
Proof.
  intros Hc Hb. unfold POST. by rewrite Hc, Hb, (folder_of_caller _ _ Hc).
Qed.

(** X16.  The upload handler answers in every case but one: it throws
    exactly when an authenticated caller sent a readable file and
    [upload_stream] itself threw, which happens in the promise returned
    without [await], out of reach of the [catch] block. *)
Theorem upload_throws_only_when_the_service_throws
    session now formData cloudinary :
  POST session now formData cloudinary = Thrown
  ↔ ∃ who file bytes,
      Route.caller session = Some who
      ∧ formData = Ok (FileValue file)
      ∧ arrayBuffer file = Ok bytes
      ∧ cloudinary {| resource_type := "auto";
                      folder := "lief_notes/" +:+ who;
                      public_id := public_id_of now (name file);
                      overwrite := false |} bytes = UploadThrew.
Proof.
  unfold POST. split.
  - destruct (Route.caller session) as [who|] eqn:Hc; [|done].
    rewrite (folder_of_caller _ _ Hc).
    destruct formData as [[|s|file]|e]; try done.
    + by destruct s.
    + destruct (arrayBuffer file) as [bytes|e] eqn:Hb; [|done].
      destruct (cloudinary _ bytes) eqn:Hu; try done. intros _. by eauto 10.
  - intros (who & file & bytes & Hc & -> & Hb & Hu).
    by rewrite Hc, Hb, (folder_of_caller _ _ Hc), Hu.
Qed.

End UploadProperties.

(** * Properties of the handlers of the page *)

Section ClientProperties.
Import Page Client.

Variable text : JsString → string.
Variable new_ObjectId : Route.JsValue → option N.
Variable toString : N → string.

(** The handlers are run one statement at a time. *)

Lemma bind_set {B} u (f : unit → Act B) net st :
  Client.bind (Client.set u) f net st
  = {| now := now (f tt net (u st)); sent := sent (f tt net (u st));
       value := value (f tt net (u st)) |}.
Proof. reflexivity. Qed.

Lemma bind_ret {A B} (a : A) (f : A → Act B) net st :
  Client.bind (ret a) f net st
  = {| now := now (f a net st); sent := sent (f a net st);
       value := value (f a net st) |}.
Proof. reflexivity. Qed.

Lemma bind_throw {A B} (f : A → Act B) net st :
  Client.bind throw f net st = {| now := st; sent := []; value := None |}.
Proof. reflexivity. Qed.

Lemma bind_fetch {B} r (f : bool * Settled Route.JSON → Act B) net st :
  Client.bind (fetch r) f net st
  = match net r with
    | Response ok j =>
        {| now := now (f (ok, j) net st); sent := r :: sent (f (ok, j) net st);
           value := value (f (ok, j) net st) |}
    | NetworkError => {| now := st; sent := [r]; value := None |}
    end.
Proof. unfold Client.bind, fetch. cbn. by destruct (net r). Qed.

Lemma bind_member {B} d key (f : Route.JsValue → Act B) net st :
  Client.bind (member d key) f net st
  = match d with
    | Route.JNull => {| now := st; sent := []; value := None |}
    | _ => {| now := now (f (Route.prop d key) net st);
              sent := sent (f (Route.prop d key) net st);
              value := value (f (Route.prop d key) net st) |}
    end.
Proof. by destruct d. Qed.

Lemma set_run u net st :
  Client.set u net st = {| now := u st; sent := []; value := Some tt |}.
Proof. reflexivity. Qed.

Lemma ret_run {A} (a : A) net st :
  ret a net st = {| now := st; sent := []; value := Some a |}.
Proof. reflexivity. Qed.

Lemma bind_member_object {B} d key (f : Route.JsValue → Act B) net st :
  d ≠ Route.JNull →
  Client.bind (member d key) f net st
  = {| now := now (f (Route.prop d key) net st);
       sent := sent (f (Route.prop d key) net st);
       value := value (f (Route.prop d key) net st) |}.
Proof. by destruct d. Qed.

Lemma bind_bind {A B C} (m : Act A) (g : A → Act B) (f : B → Act C) net st :
  Client.bind (Client.bind m g) f net st
  = Client.bind m (λ a, Client.bind (g a) f) net st.
Proof.
  unfold Client.bind. cbn. destruct (value (m net st)) as [a|]; cbn; [|done].
  destruct (value (g a net _)) as [b|]; cbn; by rewrite ?app_assoc.
Qed.

Ltac exec net :=
  repeat first
    [ progress cbv beta zeta
    | progress cbn [now sent value fst snd Client.await app]
    | progress unfold Client.finally, cancelEditingNote, cancelDeletingNote
    | match goal with
      | |- context [Client.bind (Client.bind ?m ?g) ?f ?n ?s] =>
          rewrite (bind_bind m g f n s)
      | |- context [Client.bind (member (listed ?j) ?k) ?f ?n ?s] =>
          rewrite (bind_member_object (listed j) k f n s) by done
      | |- context [Client.bind (Client.set ?u) ?f ?n ?s] => rewrite (bind_set u f n s)
      | |- context [Client.bind (ret ?a) ?f ?n ?s] => rewrite (bind_ret a f n s)
      | |- context [Client.bind throw ?f ?n ?s] => rewrite (bind_throw f n s)
      | |- context [Client.bind (fetch ?r) ?f ?n ?s] => rewrite (bind_fetch r f n s)
      | Hd : ?d ≠ Route.JNull |- context [Client.bind (member ?d ?k) ?f ?n ?s] =>
          rewrite (bind_member_object d k f n s Hd)
      | |- context [Client.bind (member ?d ?k) ?f ?n ?s] =>
          rewrite (bind_member d k f n s)
      | |- context [Client.set ?u ?n ?s] => rewrite (set_run u n s)
      | |- context [ret ?a ?n ?s] => rewrite (ret_run a n s)
      | H : net ?r = _ |- context [match net ?r with _ => _ end] => rewrite H
      | |- context [match net ?r with _ => _ end] =>
          let ok := fresh "ok" in
          let data := fresh "data" in
          destruct (net r) as [ok [data|]|] eqn:?
      | |- context [Client.bind (if ?b then _ else _)] => destruct b
      | |- context [match ?d with Route.JNull => _ | _ => _ end] => destruct d
      end ].

Lemma title_guard (t : string) : t ≠ "" → String.eqb t "" = false.
Proof. by intros ?; apply String.eqb_neq. Qed.

Lemma bodies_cons m r l :
  bodies m (r :: l)
  = (if String.eqb (method r) m
     then match body r with JsonBody j => [j] | _ => [] end
     else []) ++ bodies m l.
Proof. unfold bodies. cbn. destruct (String.eqb _ _); [destruct (body r)|]; done. Qed.

Lemma bodies_app m l k : bodies m (l ++ k) = bodies m l ++ bodies m k.
Proof. apply omap_app. Qed.

Lemma loadNotes_frame auth net st :
  let r := loadNotes auth net st in
  (∀ m, bodies m (sent r) = [])
  ∧ manual (now r) = manual st ∧ scan (now r) = scan st
  ∧ editing (now r) = editing st ∧ deleting (now r) = deleting st.
Proof.
  cbv zeta. unfold loadNotes. destruct auth; cbn [negb]; [|done].
  exec net; repeat split; try done.
  all: intros m; rewrite bodies_cons; unfold get_notes; cbn [body method];
    by destruct (String.eqb _ _).
Qed.

Lemma loadNotes_bodies auth net st m : bodies m (sent (loadNotes auth net st)) = [].
Proof. apply loadNotes_frame. Qed.

(** What [loadNotes] leaves of the cells it does not write. *)
Ltac frame net :=
  cbn -[loadNotes];
  repeat match goal with
         | |- context [loadNotes ?a net ?s] =>
             let Hm := fresh in
             let Hs := fresh in
             let He := fresh in
             let Hd := fresh in
             destruct (loadNotes_frame a net s) as (_ & Hm & Hs & He & Hd);
             rewrite ?Hm, ?Hs, ?He, ?Hd; clear Hm Hs He Hd
         end;
  cbn -[loadNotes].

Ltac collect :=
  repeat rewrite app_nil_r;
  repeat first [ rewrite bodies_app | rewrite bodies_cons | rewrite loadNotes_bodies ];
  cbn.

(** X17.  [loadNotes] does nothing when nobody is signed in.  Otherwise it
    sends one [GET /api/notes], ends with the loading flag lowered and
    touches no other form.  The status of the answer is not looked at: the
    list becomes the [notes] member of whatever JSON came back, or the empty
    list when there is none (as with the body of a 401); when the request
    or the decoding fails, or the body is [null], it throws and the list is
    kept. *)
Theorem loadNotes_replaces_the_list net st :
  loadNotes false net st = {| now := st; sent := []; value := Some tt |}
  ∧ let r := loadNotes true net st in
    sent r = [get_notes]
    ∧ loadingNotes (listing (now r)) = false
    ∧ manual (now r) = manual st ∧ scan (now r) = scan st
    ∧ editing (now r) = editing st ∧ deleting (now r) = deleting st
    ∧ match net get_notes with
      | Response _ (Fulfilled Route.JNull) | Response _ Rejected | NetworkError =>
          value r = None ∧ notes (listing (now r)) = notes (listing st)
      | Response _ (Fulfilled data) =>
          value r = Some tt
          ∧ notes (listing (now r))
            = Route.nullish_or (Route.prop data "notes") (Route.JArr [])
      end.
Proof.
  split; [done|]. cbv zeta. unfold loadNotes. cbn [negb].
  destruct (net get_notes) as [ok [data|]|] eqn:Hnet; [destruct data|..].
  all: exec net; by repeat split.
Qed.

(** X18.  Saving the manual form sends one [POST] body, and the notes route
    stores for it a note of the caller with the title of the form, origin
    [manual], the HTML of the editor as content, no recognized text and no
    file: a note that satisfies the invariant of the data model. *)
Theorem manual_note_from_the_page_is_stored
    auth html net st session who date fresh stored :
  Route.caller session = Some who →
  stored !! fresh = None →
  manualTitle (manual st) ≠ "" →
  ∃ b n,
    bodies "POST" (sent (saveManualNote auth (Some html) net st)) = [b]
    ∧ Route.POST toString session b date fresh stored
      = (Route.json (Route.IdJson (toString fresh)), <[fresh := n]> stored)
    ∧ Route.doctorId n = who
    ∧ Route.title n = Route.JStr (manualTitle (manual st))
    ∧ Route.source n = Route.JStr "manual"
    ∧ Route.contentHtml n = Route.JStr html
    ∧ Route.ocrText n = Route.JStr ""
    ∧ Route.fileUrl n = Route.JStr ""
    ∧ Route.origin_invariant n.
Proof.
  intros Hwho Hfresh Htitle.
  eexists (Route.JObj [("title", Route.JStr (manualTitle (manual st)));
                       ("source", Route.JStr "manual");
                       ("contentHtml", Route.JStr html)]), _.
  split.
  { unfold saveManualNote. rewrite (title_guard _ Htitle).
    exec net; by collect. }
  unfold Route.POST, Route.insertOne. rewrite Hwho, Hfresh. cbn.
  rewrite (title_guard _ Htitle). cbn.
  split; [reflexivity|]. by repeat split.
Qed.

(** X19.  Saving the scan form after a successful upload sends one [POST]
    body to the notes route, which stores for it a note of the caller with
    the title of the form, origin [scan], the transcript on show, no HTML
    content, the URL and public identifier the upload route reported and the
    name and type of the file: a note that satisfies the invariant of the
    data model. *)
Theorem scan_note_from_the_page_is_stored
    auth net st file upload session who date fresh stored :
  Route.caller session = Some who →
  stored !! fresh = None →
  scanFile (cells (scan st)) = Some file →
  scanTitle (scan st) ≠ "" →
  net (upload_request file) = Response true (Fulfilled upload) →
  upload ≠ Route.JNull →
  ∃ b n,
    bodies "POST" (sent (saveScanNote text auth net st)) = [b]
    ∧ Route.POST toString session b date fresh stored
      = (Route.json (Route.IdJson (toString fresh)), <[fresh := n]> stored)
    ∧ Route.doctorId n = who
    ∧ Route.title n = Route.JStr (scanTitle (scan st))
    ∧ Route.source n = Route.JStr "scan"
    ∧ Route.contentHtml n = Route.JStr ""
    ∧ Route.ocrText n = Route.JStr (text (ocrText (cells (scan st))))
    ∧ Route.fileUrl n = Route.nullish_or (Route.prop upload "url") (Route.JStr "")
    ∧ Route.filePublicId n
      = Route.nullish_or (Route.prop upload "publicId") (Route.JStr "")
    ∧ Route.fileName n = Route.JStr (name file)
    ∧ Route.fileType n = Route.JStr (type file)
    ∧ Route.origin_invariant n.
Proof.
  intros Hwho Hfresh Hfile Htitle Hup Hnull. unfold upload_request in Hup.
  eexists (stringify
    [("title", Some (Route.JStr (scanTitle (scan st))));
     ("source", Some (Route.JStr "scan"));
     ("ocrText", Some (Route.JStr (text (ocrText (cells (scan st))))));
     ("fileUrl", Route.prop upload "url");
     ("filePublicId", Route.prop upload "publicId");
     ("fileName", Some (Route.JStr (name file)));
     ("fileType", Some (Route.JStr (type file)))]),
    {| Route.doctorId := who;
       Route.title := Route.JStr (scanTitle (scan st));
       Route.source := Route.JStr "scan";
       Route.contentHtml := Route.JStr "";
       Route.ocrText := Route.JStr (text (ocrText (cells (scan st))));
       Route.fileUrl := Route.nullish_or (Route.prop upload "url") (Route.JStr "");
       Route.fileName := Route.JStr (name file);
       Route.fileType := Route.JStr (type file);
       Route.filePublicId :=
         Route.nullish_or (Route.prop upload "publicId") (Route.JStr "");
       Route.createdAt := Some date;
       Route.updatedAt := None |}.
  split.
  { unfold saveScanNote. rewrite Hfile, (title_guard _ Htitle).
    exec net; try done; by collect. }
  unfold Route.POST, Route.insertOne. rewrite Hwho, Hfresh.
  destruct (Route.prop upload "url") as [url|],
    (Route.prop upload "publicId") as [publicId|]; cbn;
    rewrite (title_guard _ Htitle); cbn;
    (split; [reflexivity|]); by repeat split.
Qed.

(** X20.  When the upload fails (the request fails, the answer is not [ok],
    or its body cannot be read or is [null]) saving the scan throws after
    that one request: no note is sent to the notes route, the list is not
    reloaded, and the form is as it was, with the saving flag lowered. *)
Theorem failed_upload_keeps_the_scan_form auth net st file :
  scanFile (cells (scan st)) = Some file →
  scanTitle (scan st) ≠ "" →
  net (upload_request file) = NetworkError
  ∨ (∃ j, net (upload_request file) = Response false j)
  ∨ net (upload_request file) = Response true Rejected
  ∨ net (upload_request file) = Response true (Fulfilled Route.JNull) →
  let r := saveScanNote text auth net st in
  value r = None
  ∧ sent r = [upload_request file]
  ∧ now r = setSavingScan false st.
Proof.
  intros Hfile Htitle Hup. cbv zeta. unfold upload_request in *.
  unfold saveScanNote. rewrite Hfile, (title_guard _ Htitle).
  destruct Hup as [Hup|[[j Hup]|[Hup|Hup]]]; exec net; done.
Qed.

(** X21.  [saveManualNote] does not look at the answer of the notes route:
    whenever the request gets an answer, even a refusal, the title of the
    form is cleared and the saving flag lowered. *)
Theorem manual_title_is_cleared_even_when_refused auth html net st :
  manualTitle (manual st) ≠ "" →
  (∀ b, ∃ ok j, net (notes_request "POST" b) = Response ok j) →
  let r := saveManualNote auth (Some html) net st in
  manualTitle (manual (now r)) = ""
  ∧ savingManual (manual (now r)) = false.
Proof.
  intros Htitle Hnet. cbv zeta.
  unfold saveManualNote. rewrite (title_guard _ Htitle).
  rewrite bind_set. unfold Client.finally. cbv beta zeta. rewrite bind_fetch.
  destruct (Hnet (stringify
    [("title", Some (Route.JStr (manualTitle (manual st))));
     ("source", Some (Route.JStr "manual"));
     ("contentHtml", Some (Route.JStr html))])) as (ok & j & Hpost).
  unfold notes_request in Hpost. rewrite Hpost.
  exec net. by frame net.
Qed.

(** X22.  Once the upload has succeeded, [saveScanNote] does not look at the
    answer of the notes route: whenever that request gets an answer, even a
    refusal, the title, file, preview, transcript and progress of the form
    are reset; the busy flag is left alone and the saving flag lowered. *)
Theorem scan_form_is_cleared_even_when_refused auth net st file upload :
  scanFile (cells (scan st)) = Some file →
  scanTitle (scan st) ≠ "" →
  net (upload_request file) = Response true (Fulfilled upload) →
  upload ≠ Route.JNull →
  (∀ b, ∃ ok j, net (notes_request "POST" b) = Response ok j) →
  let r := saveScanNote text auth net st in
  scanTitle (scan (now r)) = ""
  ∧ scanFile (cells (scan (now r))) = None
  ∧ scanPreview (cells (scan (now r))) = None
  ∧ ocrText (cells (scan (now r))) = js ""
  ∧ ocrProgress (cells (scan (now r))) = 0%Z
  ∧ ocrBusy (cells (scan (now r))) = ocrBusy (cells (scan st))
  ∧ savingScan (scan (now r)) = false.
Proof.
  intros Hfile Htitle Hup Hnull Hnet. cbv zeta. unfold upload_request in Hup.
  unfold saveScanNote. rewrite Hfile, (title_guard _ Htitle).
  destruct (Hnet (stringify
    [("title", Some (Route.JStr (scanTitle (scan st))));
     ("source", Some (Route.JStr "scan"));
     ("ocrText", Some (Route.JStr (text (ocrText (cells (scan st))))));
     ("fileUrl", Route.prop upload "url");
     ("filePublicId", Route.prop upload "publicId");
     ("fileName", Some (Route.JStr (name file)));
     ("fileType", Some (Route.JStr (type file)))])) as (ok & j & Hpost).
  unfold notes_request in Hpost.
  exec net; try done; by frame net.
Qed.

(** X23.  Saving the edit dialog of a listed note of the caller sends one
    [PATCH] body, for which the notes route stores the title of the dialog
    and, on a manual note, the HTML of the edit editor (the empty string
    when there is no editor; the text kept in the dialog is not used), on
    any other note the text kept in the dialog. *)
Theorem edit_from_the_page_is_stored
    auth editor net st session who date stored i n t :
  Route.caller session = Some who →
  stored !! i = Some n →
  Route.doctorId n = who →
  toString i ≠ "" →
  new_ObjectId (Some (Route.JStr (toString i))) = Some i →
  editingNote (editing st) = listed (Route.serialize toString (i, n)) →
  editTitle (editing st) = Some (Route.JStr t) →
  t ≠ "" →
  ∃ b,
    bodies "PATCH" (sent (saveEditedNote auth editor net st)) = [b]
    ∧ Route.PATCH new_ObjectId session b date stored
      = (Route.json Route.SuccessJson,
         <[i := if Route.strict_eq_str (Route.source n) "manual"
                then Route.set_manual (Route.JStr t) date
                       (Route.JStr (default "" editor)) n
                else Route.set_scan (Route.JStr t) date
                       (Route.nullish_or (Some (editContent (editing st)))
                          (Route.JStr "")) n]> stored).
Proof.
  intros Hwho Hn Hdoc Hid Hoid Hnote Ht Hne.
  eexists (stringify
    ([("id", Some (Route.JStr (toString i))); ("title", Some (Route.JStr t))]
     ++ (if Route.strict_eq_str (Route.source n) "manual"
         then [("contentHtml", Some (Route.JStr (default "" editor)))]
         else [("ocrText", Some (editContent (editing st)))]))).
  split.
  { unfold saveEditedNote. rewrite Hnote, Ht. cbn [Route.truthy listed negb orb].
    rewrite (title_guard _ Hne). cbn [negb orb].
    exec net; by collect. }
  unfold Route.PATCH. rewrite Hwho.
  destruct (Route.strict_eq_str (Route.source n) "manual") eqn:Hsrc; cbn;
    rewrite (title_guard _ Hid), (title_guard _ Hne); cbn; rewrite Hoid;
    (assert (Route.findOne i who stored = Some n) as -> by (by apply findOne_Some));
    unfold Route.updateData; rewrite Hsrc;
    by rewrite (updateOne_found _ _ _ _ Hn).
Qed.

(** X24.  Opening the edit dialog on a listed scanned note and saving it at
    once changes nothing in the stored note but [updatedAt]. *)
Theorem unchanged_scan_edit_only_stamps_the_note
    auth editor net st session who date stored i n t :
  Route.caller session = Some who →
  stored !! i = Some n →
  Route.doctorId n = who →
  toString i ≠ "" →
  new_ObjectId (Some (Route.JStr (toString i))) = Some i →
  Route.title n = Route.JStr t →
  t ≠ "" →
  Route.source n ≠ Route.JStr "manual" →
  Route.ocrText n ≠ Route.JNull →
  let opened :=
    now (startEditingNote (listed (Route.serialize toString (i, n))) net st) in
  ∃ b,
    bodies "PATCH" (sent (saveEditedNote auth editor net opened)) = [b]
    ∧ Route.PATCH new_ObjectId session b date stored
      = (Route.json Route.SuccessJson,
         <[i := Route.set_scan (Route.title n) date (Route.ocrText n) n]> stored).
Proof.
  intros Hwho Hn Hdoc Hid Hoid Ht Hne Hsrc%strict_eq_str_false Htext opened.
  assert (editing opened
          = {| editingNote := listed (Route.serialize toString (i, n));
               editTitle := Some (Route.JStr t);
               editContent := Route.ocrText n;
               savingEdit := savingEdit (editing st) |}) as Hopened.
  { unfold opened, startEditingNote. exec net. cbn. rewrite Hsrc. exec net.
    cbn. rewrite Ht. by destruct (Route.ocrText n). }
  eexists (stringify
    [("id", Some (Route.JStr (toString i))); ("title", Some (Route.JStr t));
     ("ocrText", Some (Route.ocrText n))]).
  split.
  { unfold saveEditedNote. rewrite Hopened. cbn [editingNote editTitle editContent].
    cbn [Route.truthy listed negb orb]. rewrite (title_guard _ Hne). cbn [negb orb].
    exec net; collect; by rewrite Hsrc. }
  unfold Route.PATCH. rewrite Hwho. cbn.
  rewrite (title_guard _ Hid), (title_guard _ Hne). cbn. rewrite Hoid.
  assert (Route.findOne i who stored = Some n) as -> by (by apply findOne_Some).
  unfold Route.updateData. rewrite Hsrc, (updateOne_found _ _ _ _ Hn), Ht.
  by destruct (Route.ocrText n).
Qed.

(** X25.  Confirming the delete dialog of a listed note of the caller with
    the text [Delete Note] sends one [DELETE] body, for which the notes route
    removes that note. *)
Theorem confirmed_delete_removes_the_note
    auth net st session who stored i n :
  Route.caller session = Some who →
  stored !! i = Some n →
  Route.doctorId n = who →
  toString i ≠ "" →
  new_ObjectId (Some (Route.JStr (toString i))) = Some i →
  deletingNote (deleting st) = listed (Route.serialize toString (i, n)) →
  deleteConfirmation (deleting st) = "Delete Note" →
  ∃ b,
    bodies "DELETE" (sent (confirmDeleteNote auth net st)) = [b]
    ∧ Route.DELETE new_ObjectId session b stored
      = (Route.json Route.SuccessJson, delete i stored).
Proof.
  intros Hwho Hn Hdoc Hid Hoid Hnote Hconf.
  eexists (stringify [("id", Some (Route.JStr (toString i)))]).
  split.
  { unfold confirmDeleteNote. rewrite Hnote, Hconf, String.eqb_refl.
    cbn [Route.truthy listed negb orb].
    exec net; by collect. }
  unfold Route.DELETE. rewrite Hwho. cbn.
  rewrite (title_guard _ Hid). cbn. rewrite Hoid.
  by assert (Route.findOne i who stored = Some n) as -> by (by apply findOne_Some).
Qed.

(** X26.  Unlike the saving functions, [confirmDeleteNote] looks at the
    answer: when the request fails or is refused it throws after that one
    request, the list is not reloaded, and the dialog stays open with its
    note and confirmation text, the progress flag lowered. *)
Theorem refused_delete_keeps_the_dialog auth net st :
  deleteConfirmation (deleting st) = "Delete Note" →
  Route.truthy (Some (deletingNote (deleting st))) = true →
  (∀ b, net (notes_request "DELETE" b) = NetworkError
        ∨ ∃ j, net (notes_request "DELETE" b) = Response false j) →
  let r := confirmDeleteNote auth net st in
  value r = None
  ∧ sent r = [notes_request "DELETE"
                (stringify [("id", Route.prop (deletingNote (deleting st)) "_id")])]
  ∧ now r = setDeletingInProgress false st.
Proof.
  intros Hconf Hnote Hnet. cbv zeta.
  assert (deletingNote (deleting st) ≠ Route.JNull) as Hnull
    by (by intros E; rewrite E in Hnote).
  unfold confirmDeleteNote. rewrite Hconf, Hnote, String.eqb_refl. cbn [negb orb].
  destruct (Hnet (stringify [("id", Route.prop (deletingNote (deleting st)) "_id")]))
    as [Hdel|[j Hdel]]; unfold notes_request in *; exec net; done.
Qed.

End ClientProperties.

(** ** The further properties at sample requests *)

Section RouteExtrasExamples.
Import Route.

Example request_without_id_at_title_only :
  PATCH hex_ObjectId (doctor "alice@lief.care") (JObj [("title", JStr "x")]) 2000 one_note
    = (missing_fields, one_note)
  ∧ DELETE hex_ObjectId (doctor "alice@lief.care") (JObj [("title", JStr "x")]) one_note
    = (missing_id, one_note).
Proof.
  exact (request_without_id_is_refused_before_any_lookup hex_ObjectId
           (doctor "alice@lief.care") (JObj [("title", JStr "x")]) 2000 one_note
           "alice@lief.care" eq_refl eq_refl).
Defined.



Example draft_manual_is_listed_after_post :
  ∃ doc found,
    POST hex_toString (doctor "alice@lief.care") draft_manual 2000 2%N one_note
      = (json (IdJson (hex_toString 2)), <[2%N := doc]> one_note)
    ∧ GET hex_toString (doctor "alice@lief.care") (<[2%N := doc]> one_note)
      = (json (NotesJson (serialize hex_toString <$> found)), <[2%N := doc]> one_note)
    ∧ (2%N, doc) ∈ found
    ∧ (1%N, visit1) ∈ found.
Proof.
  destruct (created_note_is_listed hex_toString (doctor "alice@lief.care")
              draft_manual 2000 2%N one_note "alice@lief.care"
              eq_refl eq_refl eq_refl eq_refl)
    as (doc & found & Hpost & Hget & Hin & _ & _ & _ & _ & Hold & _).
  exists doc, found. split; [exact Hpost|]. split; [exact Hget|].
  split; [exact Hin|]. apply Hold; reflexivity.
Defined.

Example create_then_delete_at_draft_manual :
  DELETE hex_ObjectId (doctor "alice@lief.care") (JObj [("id", JStr (hex_toString 2))])
    (snd (POST hex_toString (doctor "alice@lief.care") draft_manual 2000 2%N one_note))
  = (json SuccessJson, one_note).
Proof.
  assert (hex_toString 2 ≠ "") as Hid by (vm_compute; discriminate).
  exact (create_then_delete_restores hex_ObjectId hex_toString
           (doctor "alice@lief.care") draft_manual 2000 2%N one_note "alice@lief.care"
           eq_refl eq_refl eq_refl eq_refl Hid eq_refl).
Defined.


End RouteExtrasExamples.

(** ** The further properties at sample jobs *)

Section PageExtrasExamples.
Import Page.

Example blank_page_gives_empty_transcript :
  ocrText (final (run (reads "   ") (handleScanFile scanA) blank)) = js "".
Proof.
  assert (Forall (λ c, isWhiteSpace c = true) (js "   ")) as Hwhite
    by (repeat constructor).
  exact (proj1 (blank_text_gives_empty_transcript (reads "   ") scanA blank
                  (js "   ") eq_refl Hwhite)).
Defined.

Example referral_is_recognized_from_its_first_page :
  ∃ url, renderFirstPage (reads "two words") referral = Fulfilled url
         ∧ DataUrl "data:image/png;base64,AAAA" = DataUrl url.
Proof.
  apply (proj1 (pdf_is_recognized_from_its_first_page (reads "two words") referral
                  blank eq_refl)).
  vm_compute. repeat first [apply list_elem_of_here | apply list_elem_of_further].
Defined.

End PageExtrasExamples.

(** ** The properties at a sample upload *)

Section UploadExamples.
Import Page Upload.

Example scan_of_ward_goes_to_the_callers_folder :
  POST (Route.doctor "alice@lief.care") 1700000000000 (Ok (FileValue scan_of_ward))
    accepting
  = Returned {| status := 200;
                payload := UploadedJson (Some "https://res.cloudinary.com/demo/x.png")
                             (Some "x") |}.
Proof.
  exact (upload_goes_to_the_callers_folder (Route.doctor "alice@lief.care")
           1700000000000 scan_of_ward [137; 80; 78; 71]%N accepting "alice@lief.care"
           eq_refl eq_refl).
Defined.

End UploadExamples.

(** ** The properties at sample pages *)

Section ClientExamples.
Import Page Client.

Example draft_from_the_page_is_stored :
  ∃ b n,
    bodies "POST" (sent (saveManualNote true (Some "<p>ok</p>") agreeable home_with_draft))
      = [b]
    ∧ Route.POST Route.hex_toString (Route.doctor "alice@lief.care") b 2000 2%N
        Route.one_note
      = (Route.json (Route.IdJson (Route.hex_toString 2)), <[2%N := n]> Route.one_note)
    ∧ Route.title n = Route.JStr "Visit 2"
    ∧ Route.contentHtml n = Route.JStr "<p>ok</p>"
    ∧ Route.origin_invariant n.
Proof.
  assert (manualTitle (manual home_with_draft) ≠ "") as Htitle by discriminate.
  destruct (manual_note_from_the_page_is_stored Route.hex_toString true "<p>ok</p>"
              agreeable home_with_draft (Route.doctor "alice@lief.care")
              "alice@lief.care" 2000 2%N Route.one_note eq_refl eq_refl Htitle)
    as (b & n & Hsent & Hpost & _ & Ht & _ & Hhtml & _ & _ & Hinv).
  exists b, n. split; [exact Hsent|]. split; [exact Hpost|].
  split; [exact Ht|]. split; [exact Hhtml | exact Hinv].
Defined.

Example scan_from_the_page_is_stored :
  ∃ b n,
    bodies "POST" (sent (saveScanNote ascii_text true uploads_only home_with_scan)) = [b]
    ∧ Route.POST Route.hex_toString (Route.doctor "alice@lief.care") b 2000 2%N
        Route.one_note
      = (Route.json (Route.IdJson (Route.hex_toString 2)), <[2%N := n]> Route.one_note)
    ∧ Route.ocrText n = Route.JStr "two words"
    ∧ Route.fileUrl n = Route.JStr "https://res.cloudinary.com/demo/referral.pdf"
    ∧ Route.origin_invariant n.
Proof.
  assert (scanTitle (scan home_with_scan) ≠ "") as Htitle by discriminate.
  assert (Route.JObj
            [("success", Route.JBool true);
             ("url", Route.JStr "https://res.cloudinary.com/demo/referral.pdf");
             ("publicId", Route.JStr "lief_notes/alice@lief.care/1_referral.pdf")]
          ≠ Route.JNull) as Hdata by discriminate.
  destruct (scan_note_from_the_page_is_stored ascii_text Route.hex_toString true
              uploads_only home_with_scan referral _
              (Route.doctor "alice@lief.care") "alice@lief.care" 2000 2%N
              Route.one_note eq_refl eq_refl eq_refl Htitle eq_refl Hdata)
    as (b & n & Hsent & Hpost & _ & _ & _ & _ & Htext & Hurl & _ & _ & _ & Hinv).
  exists b, n. split; [exact Hsent|]. split; [exact Hpost|].
  split; [exact Htext|]. split; [exact Hurl | exact Hinv].
Defined.

Example refused_upload_keeps_the_scan :
  let r := saveScanNote ascii_text true refusing home_with_scan in
  value r = None
  ∧ sent r = [upload_request referral]
  ∧ now r = setSavingScan false home_with_scan.
Proof.
  assert (scanTitle (scan home_with_scan) ≠ "") as Htitle by discriminate.
  exact (failed_upload_keeps_the_scan_form ascii_text true refusing home_with_scan
           referral eq_refl Htitle
           (or_intror (or_introl (ex_intro _ _ eq_refl)))).
Defined.

Example refused_draft_loses_its_title :
  let r := saveManualNote true (Some "<p>ok</p>") refusing home_with_draft in
  manualTitle (manual (now r)) = "" ∧ savingManual (manual (now r)) = false.
Proof.
  assert (manualTitle (manual home_with_draft) ≠ "") as Htitle by discriminate.
  exact (manual_title_is_cleared_even_when_refused true "<p>ok</p>" refusing
           home_with_draft Htitle
           (λ b, ex_intro _ false (ex_intro _ _ eq_refl))).
Defined.

Example refused_scan_note_clears_the_form :
  let r := saveScanNote ascii_text true uploads_only home_with_scan in
  scanTitle (scan (now r)) = "" ∧ scanFile (cells (scan (now r))) = None.
Proof.
  assert (scanTitle (scan home_with_scan) ≠ "") as Htitle by discriminate.
  assert (Route.JObj
            [("success", Route.JBool true);
             ("url", Route.JStr "https://res.cloudinary.com/demo/referral.pdf");
             ("publicId", Route.JStr "lief_notes/alice@lief.care/1_referral.pdf")]
          ≠ Route.JNull) as Hdata by discriminate.
  destruct (scan_form_is_cleared_even_when_refused ascii_text true uploads_only
              home_with_scan referral _ eq_refl Htitle eq_refl Hdata
              (λ b, ex_intro _ false (ex_intro _ _ eq_refl)))
    as (Ht & Hfile & _).
  split; [exact Ht | exact Hfile].
Defined.

Example edit_of_visit1_is_stored :
  ∃ b,
    bodies "PATCH" (sent (saveEditedNote true (Some "<p>better</p>") agreeable
                            editing_visit1)) = [b]
    ∧ Route.PATCH Route.hex_ObjectId (Route.doctor "alice@lief.care") b 3000
        Route.one_note
      = (Route.json Route.SuccessJson,
         <[1%N := Route.set_manual (Route.JStr "Visit 1b") 3000
                    (Route.JStr "<p>better</p>") Route.visit1]> Route.one_note).
Proof.
  assert (Route.hex_toString 1 ≠ "") as Hid by (vm_compute; discriminate).
  assert ("Visit 1b" ≠ "") as Hne by discriminate.
  exact (edit_from_the_page_is_stored Route.hex_ObjectId Route.hex_toString true
           (Some "<p>better</p>") agreeable editing_visit1
           (Route.doctor "alice@lief.care") "alice@lief.care" 3000 Route.one_note
           1%N Route.visit1 "Visit 1b"
           eq_refl eq_refl eq_refl Hid eq_refl eq_refl eq_refl Hne).
Defined.

Example unchanged_edit_of_scan2_only_stamps_it :
  ∃ b,
    bodies "PATCH"
      (sent (saveEditedNote true None agreeable
               (now (startEditingNote
                       (listed (Route.serialize Route.hex_toString (2%N, scan2)))
                       agreeable empty_home)))) = [b]
    ∧ Route.PATCH Route.hex_ObjectId (Route.doctor "alice@lief.care") b 3000 two_notes
      = (Route.json Route.SuccessJson,
         <[2%N := Route.set_scan (Route.JStr "Referral") 3000 (Route.JStr "two words")
                    scan2]> two_notes).
Proof.
  assert (Route.hex_toString 2 ≠ "") as Hid by (vm_compute; discriminate).
  assert ("Referral" ≠ "") as Hne by discriminate.
  assert (Route.source scan2 ≠ Route.JStr "manual") as Hsrc by discriminate.
  assert (Route.ocrText scan2 ≠ Route.JNull) as Htext by discriminate.
  exact (unchanged_scan_edit_only_stamps_the_note Route.hex_ObjectId
           Route.hex_toString true None agreeable empty_home
           (Route.doctor "alice@lief.care") "alice@lief.care" 3000 two_notes
           2%N scan2 "Referral"
           eq_refl eq_refl eq_refl Hid eq_refl eq_refl Hne Hsrc Htext).
Defined.

Example confirmed_delete_of_visit1 :
  ∃ b,
    bodies "DELETE" (sent (confirmDeleteNote true agreeable deleting_visit1)) = [b]
    ∧ Route.DELETE Route.hex_ObjectId (Route.doctor "alice@lief.care") b Route.one_note
      = (Route.json Route.SuccessJson, delete 1%N Route.one_note).
Proof.
  assert (Route.hex_toString 1 ≠ "") as Hid by (vm_compute; discriminate).
  exact (confirmed_delete_removes_the_note Route.hex_ObjectId Route.hex_toString true
           agreeable deleting_visit1 (Route.doctor "alice@lief.care")
           "alice@lief.care" Route.one_note 1%N Route.visit1
           eq_refl eq_refl eq_refl Hid eq_refl eq_refl eq_refl).
Defined.

Example refused_delete_of_visit1 :
  let r := confirmDeleteNote true refusing deleting_visit1 in
  value r = None
  ∧ deletingNote (deleting (now r)) = deletingNote (deleting deleting_visit1)
  ∧ deletingInProgress (deleting (now r)) = false.
Proof.
  destruct (refused_delete_keeps_the_dialog true refusing deleting_visit1
              eq_refl eq_refl
              (λ b, or_intror (ex_intro _ _ eq_refl)))
    as (Hvalue & _ & Hnow).
  cbv zeta. split; [exact Hvalue|]. rewrite Hnow. split; reflexivity.
Defined.

End ClientExamples.

(** * Properties of registration and sign-in *)

Section AuthProperties.
Import Route Auth.

Variable toLowerCase : string → string.
Variable trim : string → string.
Variable compare : string → string → bool.
Variable toString : N → string.

Lemma findOne_email key (doctors : gmap N Doctor) oid d :
  Auth.findOne key doctors = Some (oid, d) → doctors !! oid = Some d ∧ email d = key.
Proof.
  unfold Auth.findOne. intros H. apply List.find_some in H as [Hin He].
  split.
  - apply elem_of_map_to_list. by apply list_elem_of_In.
  - by apply String.eqb_eq in He.
Qed.

Lemma findOne_nobody key (doctors : gmap N Doctor) :
  Auth.findOne key doctors = None ↔ ∀ oid d, doctors !! oid = Some d → email d ≠ key.
Proof.
  unfold Auth.findOne. split.
  - intros H oid d Hd He.
    pose proof (List.find_none _ _ H (oid, d)) as Hno. simpl in Hno.
    rewrite (proj2 (String.eqb_eq _ _) He) in Hno.
    discriminate Hno. apply list_elem_of_In. by apply elem_of_map_to_list.
  - intros H. destruct (List.find _ _) as [[oid d]|] eqn:Hf; [|done].
    apply findOne_email in Hf as [Hd He]. by destruct (H _ _ Hd).
Qed.

Lemma findOne_unique key (doctors : gmap N Doctor) oid d :
  unique_emails doctors → doctors !! oid = Some d → email d = key →
  Auth.findOne key doctors = Some (oid, d).
Proof.
  intros Hu Hd He. destruct (Auth.findOne key doctors) as [[oid' d']|] eqn:Hf.
  - apply findOne_email in Hf as [Hd' He'].
    assert (oid' = oid) as -> by (eapply Hu; [done..|congruence]).
    congruence.
  - rewrite findOne_nobody in Hf. by destruct (Hf _ _ Hd).
Qed.

(** [POST] either writes nothing and answers something else than 200, or
    found nobody with the e-mail in [seen] and inserts the new doctor into
    [doctors]. *)
Lemma register_cases body hashed now fresh (seen doctors : gmap N Doctor) :
  (snd (Auth.POST toLowerCase toString body hashed now fresh seen doctors) = doctors
   ∧ ∀ r, fst (Auth.POST toLowerCase toString body hashed now fresh seen doctors)
          = Auth.Returned r → Auth.status r ≠ 200%nat)
  ∨ ∃ e h,
      prop body "email" = Some (JStr e)
      ∧ truthy (prop body "password") = true
      ∧ hashed = Some h
      ∧ doctors !! fresh = None
      ∧ (∀ oid d, seen !! oid = Some d → email d ≠ toLowerCase e)
      ∧ Auth.POST toLowerCase toString body hashed now fresh seen doctors
        = (Auth.Returned {| Auth.status := 200;
                            Auth.payload := RegisteredJson (toString fresh)
                                              "Doctor registered successfully." |},
           <[fresh := {| name := bson (prop body "name");
                         position := bson (prop body "position");
                         email := toLowerCase e;
                         password := h;
                         createdAt := now |}]> doctors).
Proof.
  unfold Auth.POST, Auth.insertOne.
  destruct (destructure body) as [field|] eqn:Hd; [|by left].
  assert (field = prop body) as -> by (destruct body; simpl in Hd; congruence).
  destruct (truthy (prop body "password")) eqn:Hpw;
    [|left; rewrite !orb_true_r; simpl; split; [done|]; by intros r [= <-]].
  destruct (_ || _); [left; simpl; split; [done|]; by intros r [= <-]|].
  destruct (prop body "email") as [[| | |e| |]|]; try by left.
  destruct (Auth.findOne (toLowerCase e) seen) eqn:Hf;
    [left; simpl; split; [done|]; by intros r [= <-]|].
  destruct hashed as [h|]; [|by left].
  destruct (doctors !! fresh) eqn:Hfresh; [by left|].
  right. exists e, h. repeat split; try done. by apply findOne_nobody.
Qed.

Lemma insert_unique fresh doc (doctors : gmap N Doctor) :
  unique_emails doctors →
  (∀ oid d, doctors !! oid = Some d → email d ≠ email doc) →
  unique_emails (<[fresh := doc]> doctors).
Proof.
  intros Hu Hnew i j a b Ha Hb Hab.
  destruct (decide (fresh = i)) as [<-|Hi], (decide (fresh = j)) as [<-|Hj]; [done|..].
  - rewrite lookup_insert_eq in Ha. rewrite lookup_insert_ne in Hb by done.
    injection Ha as <-. by destruct (Hnew _ _ Hb).
  - rewrite lookup_insert_eq in Hb. rewrite lookup_insert_ne in Ha by done.
    injection Hb as <-. by destruct (Hnew _ _ Ha).
  - rewrite lookup_insert_ne in Ha, Hb by done. by eapply Hu.
Qed.

Lemma insert_unique_inv fresh doc (doctors : gmap N Doctor) :
  doctors !! fresh = None →
  unique_emails (<[fresh := doc]> doctors) →
  unique_emails doctors ∧ ∀ oid d, doctors !! oid = Some d → email d ≠ email doc.
Proof.
  intros Hfresh Hu. split.
  - intros i j a b Ha Hb. apply Hu; rewrite lookup_insert_ne; congruence.
  - intros oid d Hd He.
    assert (oid = fresh) as ->; [|congruence].
    eapply Hu; [|apply lookup_insert_eq|done].
    rewrite lookup_insert_ne; congruence.
Qed.

(** How [authorize] goes for credentials with both fields. *)
Lemma authorize_given typed pw (doctors : gmap N Doctor) :
  authorize toLowerCase trim compare toString
    (Some {| given_email := Some typed; given_password := Some pw |}) doctors
  = if String.eqb (trim (toLowerCase typed)) "" || String.eqb pw "" then None
    else match Auth.findOne (toLowerCase (trim (toLowerCase typed))) doctors with
         | None => None
         | Some (oid, doctor) =>
             if compare pw (password doctor)
             then Some {| account_id := toString oid;
                          account_email := email doctor;
                          account_name := name doctor |}
             else None
         end.
Proof. reflexivity. Qed.

(** X27.  Registration never changes or removes an account.  Its lookup
    and its write are two steps, with [bcrypt.hash] awaited in between and
    no unique index on the collection: when every account stored at the
    write was there at the lookup, the e-mails stay pairwise distinct; a
    registration answered 200 found nobody with its e-mail at the lookup,
    adds one account with that e-mail, and leaves the e-mails pairwise
    distinct only if no account with it was stored in the meantime. *)
Theorem registration_keeps_accounts_and_may_repeat_an_email
    body hashed now fresh (seen doctors after : gmap N Doctor) answer :
  Auth.POST toLowerCase toString body hashed now fresh seen doctors = (answer, after) →
  doctors ⊆ after
  ∧ (unique_emails doctors → doctors ⊆ seen → unique_emails after)
  ∧ (∀ p, answer = Auth.Returned {| Auth.status := 200; Auth.payload := p |} →
       ∃ e new,
         prop body "email" = Some (JStr e)
         ∧ email new = toLowerCase e
         ∧ doctors !! fresh = None
         ∧ after = <[fresh := new]> doctors
         ∧ (∀ oid d, seen !! oid = Some d → email d ≠ toLowerCase e)
         ∧ (unique_emails after
            ↔ unique_emails doctors
              ∧ ∀ oid d, doctors !! oid = Some d → email d ≠ toLowerCase e)).
Proof.
  intros Hpost.
  destruct (register_cases body hashed now fresh seen doctors)
    as [[Hsame Hno] | (e & h & He & _ & _ & Hfresh & Hnew & Hdone)];
    rewrite Hpost in *; simpl in *.
  - subst after. split; [done|]. split; [done|].
    intros p ->. by destruct (Hno _ eq_refl).
  - injection Hdone as -> ->. split; [by apply insert_subseteq|]. split.
    + intros Hu Hsub. apply insert_unique; [done|]. simpl.
      intros oid d Hd. apply (Hnew oid d).
      by eapply lookup_weaken.
    + intros p _.
      exists e, {| name := bson (prop body "name");
                   position := bson (prop body "position");
                   email := toLowerCase e;
                   password := h;
                   createdAt := now |}.
      do 5 (split; [done|]). split.
      * intros Hu. by apply insert_unique_inv in Hu.
      * intros [Hu Hother]. by apply insert_unique.
Qed.

(** X28.  After a registration answered 200, and provided the e-mails of
    the collection are pairwise distinct, [authorize] returns the new
    account for the registered password (one [bcrypt.compare] accepts
    against the hash [bcrypt.hash] returned) exactly when the e-mail typed,
    lower-cased and trimmed, is not empty and, lower-cased again, is the
    stored e-mail: the registered e-mail lower-cased, and not trimmed. *)
Theorem registered_doctor_signs_in_with_the_stored_email
    body hashed now fresh (seen doctors doctors' : gmap N Doctor) p e pw typed :
  Auth.POST toLowerCase toString body (Some hashed) now fresh seen doctors
    = (Auth.Returned {| Auth.status := 200; Auth.payload := p |}, doctors') →
  unique_emails doctors' →
  prop body "email" = Some (JStr e) →
  prop body "password" = Some (JStr pw) →
  compare pw hashed = true →
  authorize toLowerCase trim compare toString
    (Some {| given_email := Some typed; given_password := Some pw |}) doctors'
  = Some {| account_id := toString fresh;
            account_email := toLowerCase e;
            account_name := bson (prop body "name") |}
  ↔ trim (toLowerCase typed) ≠ ""
    ∧ toLowerCase (trim (toLowerCase typed)) = toLowerCase e.
Proof.
  intros Hpost Hu He Hpw Hcmp.
  destruct (register_cases body (Some hashed) now fresh seen doctors)
    as [[_ Hno] | (e' & h & He' & Htruthy & [= <-] & Hfresh & Hnew & Hdone)].
  { rewrite Hpost in Hno. by destruct (Hno _ eq_refl). }
  rewrite Hpost in Hdone. injection Hdone as _ ->.
  assert (e' = e) as -> by congruence.
  rewrite Hpw in Htruthy. simpl in Htruthy. apply negb_true_iff in Htruthy.
  rewrite authorize_given, Htruthy, orb_false_r.
  destruct (String.eqb_spec (trim (toLowerCase typed)) "") as [Hblank|Hne].
  { split; [done|]. by intros [? _]. }
  split.
  - destruct (Auth.findOne _ _) as [[oid d]|] eqn:Hf; [|done].
    apply findOne_email in Hf as [_ Hkey].
    destruct (compare pw (password d)); [|done].
    intros [= _ Hmail _]. split; [done|congruence].
  - intros [_ Hkey].
    erewrite findOne_unique; [| done | apply lookup_insert_eq | by rewrite Hkey].
    simpl. by rewrite Hcmp.
Qed.

(** X29.  [authorize] returns an account only for credentials with a
    non-empty password and an e-mail that is not blank, for a doctor stored
    under that e-mail, lower-cased and trimmed, whose stored hash
    [bcrypt.compare] accepts for the password; the account returned is that
    doctor's. *)
Theorem sign_in_needs_a_matching_doctor credentials (doctors : gmap N Doctor) account :
  authorize toLowerCase trim compare toString credentials doctors = Some account →
  ∃ typed pw oid d,
    credentials = Some {| given_email := Some typed; given_password := Some pw |}
    ∧ pw ≠ ""
    ∧ trim (toLowerCase typed) ≠ ""
    ∧ doctors !! oid = Some d
    ∧ email d = toLowerCase (trim (toLowerCase typed))
    ∧ compare pw (password d) = true
    ∧ account = {| account_id := toString oid;
                   account_email := email d;
                   account_name := name d |}.
Proof.
  unfold authorize.
  destruct credentials as [[[typed|] given]|]; simpl; try done.
  destruct (String.eqb_spec (trim (toLowerCase typed)) "") as [|Hne]; simpl; [done|].
  destruct (String.eqb_spec (default "" given) "") as [|Hpw]; simpl; [done|].
  destruct given as [pw|]; [|done]. simpl in *.
  destruct (Auth.findOne _ doctors) as [[oid d]|] eqn:Hf; [|done].
  apply findOne_email in Hf as [Hd He].
  destruct (compare pw (password d)) eqn:Hcmp; [|done].
  intros [= <-]. by exists typed, pw, oid, d.
Qed.

(** X30.  When a registration whose e-mail, lower-cased, has white space at
    an end is answered 200, the account is stored under that e-mail and
    nobody can sign in to it: [POST] stores the e-mail lower-cased and not
    trimmed, [authorize] looks up a trimmed one, so the account it returns,
    if any, never has the stored e-mail.  (Given that lower-casing a
    trimmed string leaves it trimmed.) *)
Theorem padded_registration_cannot_sign_in
    body hashed now fresh (seen doctors doctors' : gmap N Doctor) p e credentials account :
  (∀ x, trim (toLowerCase (trim x)) = toLowerCase (trim x)) →
  Auth.POST toLowerCase toString body hashed now fresh seen doctors
    = (Auth.Returned {| Auth.status := 200; Auth.payload := p |}, doctors') →
  prop body "email" = Some (JStr e) →
  trim (toLowerCase e) ≠ toLowerCase e →
  authorize toLowerCase trim compare toString credentials doctors' = Some account →
  (∃ new, doctors' !! fresh = Some new ∧ email new = toLowerCase e)
  ∧ account_email account ≠ toLowerCase e.
Proof.
  intros Htrim Hpost He Hpadded Hsign. split.
  - destruct (register_cases body hashed now fresh seen doctors)
      as [[_ Hno] | (e' & h & He' & _ & _ & _ & _ & Hdone)].
    { rewrite Hpost in Hno. by destruct (Hno _ eq_refl). }
    rewrite Hpost in Hdone. injection Hdone as _ ->.
    assert (e' = e) as -> by congruence.
    eexists. by rewrite lookup_insert_eq.
  - destruct credentials as [[[typed|] [pw|]]|];
      try (unfold authorize in Hsign; simpl in Hsign;
           rewrite ?orb_true_r in Hsign; discriminate Hsign).
    rewrite authorize_given in Hsign.
    destruct (_ || _); [done|].
    destruct (Auth.findOne _ _) as [[oid d]|] eqn:Hf; [|done].
    apply findOne_email in Hf as [_ Hkey].
    destruct (compare pw (password d)); [|done].
    injection Hsign as <-. simpl. intros Hmail.
    apply Hpadded. rewrite <- Hmail, Hkey. apply Htrim.
Qed.

End AuthProperties.

(** ** The properties at sample registrations *)

Section AuthExamples.
Import Route Auth.

Lemma unique_one oid (d : Doctor) : unique_emails (<[oid := d]> ∅).
Proof.
  intros i j a b Ha Hb _.
  apply lookup_insert_Some in Ha as [[<- _]|[_ Ha]]; [|by rewrite lookup_empty in Ha].
  apply lookup_insert_Some in Hb as [[<- _]|[_ Hb]]; [done|by rewrite lookup_empty in Hb].
Qed.

(** Two registrations of the same e-mail that overlap: the second one
    looked the e-mail up before the first one wrote. *)
Example overlapping_registrations_repeat_an_email :
  Auth.POST ascii_toLowerCase hex_toString sign_up (Some (prefixed "s3cret")) 1000 1%N ∅ ∅
  = (Auth.Returned {| Auth.status := 200;
                      Auth.payload := RegisteredJson "000000000000000000000001"
                                        "Doctor registered successfully." |},
     registered_once)
  ∧ fst (Auth.POST ascii_toLowerCase hex_toString sign_up (Some (prefixed "s3cret"))
           1001 2%N ∅ registered_once)
    = Auth.Returned {| Auth.status := 200;
                       Auth.payload := RegisteredJson "000000000000000000000002"
                                         "Doctor registered successfully." |}
  ∧ registered_once
    ⊆ snd (Auth.POST ascii_toLowerCase hex_toString sign_up (Some (prefixed "s3cret"))
             1001 2%N ∅ registered_once)
  ∧ unique_emails registered_once
  ∧ ¬ unique_emails
        (snd (Auth.POST ascii_toLowerCase hex_toString sign_up (Some (prefixed "s3cret"))
                1001 2%N ∅ registered_once)).
Proof.
  destruct (registration_keeps_accounts_and_may_repeat_an_email
              ascii_toLowerCase hex_toString sign_up (Some (prefixed "s3cret"))
              1001 2%N ∅ registered_once _ _ (surjective_pairing _))
    as (Hkept & _ & Hadded).
  destruct (Hadded (RegisteredJson "000000000000000000000002"
                      "Doctor registered successfully.") eq_refl)
    as (e & new & [= <-] & _ & _ & _ & _ & Hiff).
  split; [reflexivity|]. split; [reflexivity|]. split; [exact Hkept|].
  split; [apply unique_one|].
  intros Hu. apply Hiff in Hu as [_ Hother].
  by apply (Hother 1%N _ eq_refl).
Defined.

Example alice_signs_in_with_padded_email :
  authorize ascii_toLowerCase ascii_trim prefix_compare hex_toString
    (Some {| given_email := Some " ALICE@lief.care "; given_password := Some "s3cret" |})
    registered_once
  = Some {| account_id := "000000000000000000000001";
            account_email := "alice@lief.care";
            account_name := JStr "Alice" |}.
Proof.
  refine (proj2 (registered_doctor_signs_in_with_the_stored_email
                   ascii_toLowerCase ascii_trim prefix_compare hex_toString
                   sign_up (prefixed "s3cret") 1000 1%N ∅ ∅ registered_once _
                   "Alice@Lief.care" "s3cret" " ALICE@lief.care "
                   eq_refl (unique_one _ _) eq_refl eq_refl eq_refl) _).
  split; [discriminate | reflexivity].
Defined.

Example nobody_signs_in_to_an_empty_collection :
  authorize ascii_toLowerCase ascii_trim prefix_compare hex_toString
    (Some {| given_email := Some "alice@lief.care"; given_password := Some "s3cret" |}) ∅
  = None.
Proof.
  destruct (authorize ascii_toLowerCase ascii_trim prefix_compare hex_toString
              (Some {| given_email := Some "alice@lief.care";
                       given_password := Some "s3cret" |}) ∅) as [account|] eqn:H;
    [|reflexivity].
  destruct (sign_in_needs_a_matching_doctor ascii_toLowerCase ascii_trim prefix_compare
              hex_toString _ _ _ H) as (typed & pw & oid & d & _ & _ & _ & Hd & _).
  by rewrite lookup_empty in Hd.
Defined.

(** The sample [toLowerCase] and [trim] meet the contract of X30. *)
Lemma trimStart_fixed s :
  (∀ c, head s = Some c → Page.isWhiteSpace c = false) → Page.trimStart s = s.
Proof.
  destruct s as [|c s]; [done|]. intros H. simpl. by rewrite (H c eq_refl).
Qed.

Lemma trim_fixed s :
  (∀ c, head s = Some c → Page.isWhiteSpace c = false) →
  (∀ c, last s = Some c → Page.isWhiteSpace c = false) →
  Page.trim s = s.
Proof.
  intros Hhead Hlast. unfold Page.trim, Page.trimEnd.
  rewrite (trimStart_fixed s Hhead), trimStart_fixed; [apply reverse_involutive|].
  intros c. rewrite head_reverse. apply Hlast.
Qed.

Lemma lower_white c :
  Page.isWhiteSpace (N_of_ascii (lower c)) = Page.isWhiteSpace (N_of_ascii c).
Proof. by destruct c as [[] [] [] [] [] [] [] []]. Qed.

Lemma ascii_trimmed_stays_trimmed x :
  ascii_trim (ascii_toLowerCase (ascii_trim x)) = ascii_toLowerCase (ascii_trim x).
Proof.
  unfold ascii_trim at 1. f_equal.
  unfold ascii_toLowerCase, ascii_trim, Page.js.
  rewrite !list_ascii_of_string_of_list_ascii.
  destruct (trim_split (N_of_ascii <$> list_ascii_of_string x))
    as (before & behind & Hsplit & _ & _).
  destruct (trim_ends (N_of_ascii <$> list_ascii_of_string x)) as [Hhead Hlast].
  remember (Page.trim (N_of_ascii <$> list_ascii_of_string x)) as T eqn:HT.
  assert (∀ t, t ∈ T → ∃ a, t = N_of_ascii a) as Hascii.
  { intros t Ht.
    assert (t ∈ N_of_ascii <$> list_ascii_of_string x) as Hin
      by (rewrite Hsplit, !elem_of_app; auto).
    apply list_elem_of_fmap in Hin as (a & -> & _). by exists a. }
  clear HT Hsplit. rewrite <- !list_fmap_compose.
  assert (∀ c t, t ∈ T → Page.isWhiteSpace t = false →
                 c = (N_of_ascii ∘ (lower ∘ ascii_of_N)) t →
                 Page.isWhiteSpace c = false) as Hkeeps.
  { intros c t Ht Hwhite ->. destruct (Hascii t Ht) as [a ->]. simpl.
    by rewrite ascii_N_embedding, lower_white. }
  rewrite trim_fixed.
  - rewrite <- list_fmap_compose. f_equal. apply list_fmap_ext.
    intros i n _. simpl. apply ascii_N_embedding.
  - intros c Hc. destruct T as [|t T']; [done|]. injection Hc as <-.
    apply (Hkeeps _ t); [by left | by apply Hhead | done].
  - intros c. rewrite fmap_last.
    destruct (last T) as [t|] eqn:Ht; [|done]. intros [= <-].
    apply (Hkeeps _ t); [by apply last_Some_elem_of | by apply Hlast | done].
Qed.

(** A registration with white space around the e-mail, next to the account
    of [registered_once]: signing in with the padded e-mail gives the other
    account. *)
Example padded_alice_cannot_sign_in :
  fst (Auth.POST ascii_toLowerCase hex_toString padded_sign_up (Some (prefixed "s3cret"))
         1001 2%N registered_once registered_once)
  = Auth.Returned {| Auth.status := 200;
                     Auth.payload := RegisteredJson "000000000000000000000002"
                                       "Doctor registered successfully." |}
  ∧ authorize ascii_toLowerCase ascii_trim prefix_compare hex_toString
      (Some {| given_email := Some " Alice@Lief.care "; given_password := Some "s3cret" |})
      (snd (Auth.POST ascii_toLowerCase hex_toString padded_sign_up
              (Some (prefixed "s3cret")) 1001 2%N registered_once registered_once))
    = Some {| account_id := "000000000000000000000001";
              account_email := "alice@lief.care";
              account_name := JStr "Alice" |}
  ∧ (∃ new,
       snd (Auth.POST ascii_toLowerCase hex_toString padded_sign_up
              (Some (prefixed "s3cret")) 1001 2%N registered_once registered_once)
         !! 2%N = Some new
       ∧ email new = " alice@lief.care ")
  ∧ "alice@lief.care" ≠ " alice@lief.care ".
Proof.
  split; [reflexivity|]. split; [reflexivity|].
  refine (padded_registration_cannot_sign_in
            ascii_toLowerCase ascii_trim prefix_compare hex_toString
            padded_sign_up (Some (prefixed "s3cret")) 1001 2%N
            registered_once registered_once _ _ " Alice@Lief.care "
            (Some {| given_email := Some " Alice@Lief.care ";
                     given_password := Some "s3cret" |})
            {| account_id := "000000000000000000000001";
               account_email := "alice@lief.care";
               account_name := JStr "Alice" |}
            ascii_trimmed_stays_trimmed eq_refl eq_refl _ eq_refl).
  discriminate.
Defined.

End AuthExamples.
